(** * The rotN encryptor of ex_encrypt.c

    A shallow embedding of the encryption callbacks of
    [examples/c/ex_encrypt.c] (WiredTiger's encryption API example):
    [do_rotate], [rotate_encrypt], [rotate_decrypt], [rotate_sizing],
    [rotate_customize] and [rotate_terminate], together with the
    properties the design document states about them.

    Conventions.
    - [size_t] is 64 bits wide and [uint32_t] 32 bits wide; values are
      integers of [Z] and every C operation that can wrap is followed by
      [sz] or [u32].
    - A buffer is the list of the bytes stored from its base address; a
      pointer into a buffer is the buffer and an offset.  An access outside
      the buffer is undefined behaviour ([UB]).
    - A loop whose exit depends on run-time data takes fuel; running out of
      fuel is [OutOfFuel].  For such loops the file proves how much fuel is
      enough and, where no amount is, that the loop never exits. *)

From Stdlib Require Import ZArith Lia List Strings.Byte Ascii String.
From stdpp Require Import base numbers list option gmap.

Local Open Scope Z_scope.

(** ** Outcomes of a C call *)

Inductive result (A : Type) : Type :=
| Ret (a : A)      (* the call returns *)
| UB               (* undefined behaviour: an access outside a buffer, a wild free *)
| OutOfFuel.       (* the loop was still running when the fuel ran out *)

Arguments Ret {A} a.
Arguments UB {A}.
Arguments OutOfFuel {A}.

#[global] Instance result_ret : MRet result := fun _ a => Ret a.

#[global] Instance result_bind : MBind result := fun _ _ k m =>
  match m with
  | Ret a => k a
  | UB => UB
  | OutOfFuel => OutOfFuel
  end.

(** ** Machine integers *)

Definition SIZE_MOD : Z := 2 ^ 64.
Definition UINT32_MOD : Z := 2 ^ 32.

Definition sz (z : Z) : Z := z mod SIZE_MOD.       (* size_t arithmetic *)
Definition u32 (z : Z) : Z := z mod UINT32_MOD.    (* uint32_t arithmetic *)

Definition byte_val (b : byte) : Z := Z.of_N (Byte.to_N b).

(* The conversion to uint8_t keeps the low eight bits. *)
Definition u8 (z : Z) : byte :=
  match Byte.of_N (Z.to_N (z mod 256)) with
  | Some b => b
  | None => x00
  end.

(** ** errno.h *)

Definition EPERM : Z := 1.
Definition ENOMEM : Z := 12.
Definition EINVAL : Z := 22.

(** ** The constants of the example *)

Definition CHKSUM_LEN : Z := 4.
Definition IV_LEN : Z := 16.

Definition SYS_KEYID : string := "system".
Definition SYS_BADPW : string := "bad_password".
Definition SYS_PW : string := "system_password".
Definition USER1_KEYID : string := "user1".
Definition USER2_KEYID : string := "user2".
Definition USERBAD_KEYID : string := "userbad".

(** ** ctype.h

    The program never calls [setlocale], so the classification functions
    are those of the "C" locale: the 26 upper case and the 26 lower case
    letters of ASCII. *)

Definition isupper (b : byte) : bool :=
  (65 <=? byte_val b) && (byte_val b <=? 90).

Definition islower (b : byte) : bool :=
  (97 <=? byte_val b) && (byte_val b <=? 122).

Definition isalpha (b : byte) : bool := isupper b || islower b.

(** ** The instance: MY_CRYPTO

    The first member, the [WT_ENCRYPTOR] table of callbacks, is set once by
    [add_my_encryptors] and only ever copied; it is left out.  [keyid] and
    [password] are [char *]: the address of a heap block, or NULL. *)

Definition addr := nat.

Record MY_CRYPTO : Type := mkCrypto {
  rot_N : Z;                 (* uint32_t: rotN value *)
  num_calls : Z;             (* uint32_t: count of calls *)
  keyid : option addr;       (* saved keyid *)
  password : option addr     (* saved password *)
}.

(* ++my_crypto->num_calls *)
Definition count_call (c : MY_CRYPTO) : MY_CRYPTO :=
  mkCrypto (rot_N c) (u32 (num_calls c + 1)) (keyid c) (password c).

(** ** random(3)

    The values [random] returns are not decided by the program; they are
    the entries of a sequence the environment supplies. *)

Record rng : Type := mkRng { rand_seq : nat -> Z; rand_pos : nat }.

Definition random (r : rng) : Z * rng :=
  (rand_seq r (rand_pos r), mkRng (rand_seq r) (S (rand_pos r))).

(* for (i = 0; i < n; i++) dst[i] = (uint8_t)random();
   [n] is the constant bound, [i] the current index; [dst] is [buf + off]. *)
Fixpoint fill_random (n : nat) (buf : list byte) (off : Z) (i : Z) (r : rng)
  : result (list byte * rng) :=
  match n with
  | O => Ret (buf, r)
  | S n' =>
      if (0 <=? off + i) && (off + i <? Z.of_nat (length buf)) then
        let '(v, r') := random r in
        fill_random n' (<[Z.to_nat (off + i) := u8 v]> buf) off (i + 1) r'
      else UB
  end.

(* make_cksum: here a checksum would be computed; random values instead. *)
Definition make_cksum (buf : list byte) (off : Z) (r : rng) : result (list byte * rng) :=
  fill_random (Z.to_nat CHKSUM_LEN) buf off 0 r.

(* make_iv: here the initialization vector would be generated. *)
Definition make_iv (buf : list byte) (off : Z) (r : rng) : result (list byte * rng) :=
  fill_random (Z.to_nat IV_LEN) buf off 0 r.

(** ** do_rotate *)

(* (buf[i] - base + rotn) % 26 + base, stored into a uint8_t.  [buf[i]] and
   [base] are promoted to int, the sum with the uint32_t [rotn] is taken in
   unsigned 32-bit arithmetic. *)
Definition rotate_from (base : Z) (b : byte) (rotn : Z) : byte :=
  u8 (u32 (u32 (u32 (byte_val b - base) + rotn) mod 26 + base)).

(* The body of the loop of do_rotate at one byte. *)
Definition rotate_byte (rotn : Z) (b : byte) : byte :=
  if isalpha b then
    if islower b then rotate_from 97 b rotn   (* 'a' *)
    else rotate_from 65 b rotn                (* 'A' *)
  else b.

(* for (i = 0; i < len; i++) ...: [i] is a uint32_t and [len] a size_t, so
   the test is made in 64 bits and the increment wraps at 2^32. *)
Fixpoint do_rotate_loop (fuel : nat) (i : Z) (buf : list byte) (off len rotn : Z)
  : result (list byte) :=
  match fuel with
  | O => OutOfFuel
  | S fuel' =>
      if i <? len then
        if (0 <=? off + i) && (off + i <? Z.of_nat (length buf)) then
          match buf !! Z.to_nat (off + i) with
          | Some b =>
              do_rotate_loop fuel' (u32 (i + 1))
                (<[Z.to_nat (off + i) := rotate_byte rotn b]> buf) off len rotn
          | None => UB
          end
        else UB
      else Ret buf
  end.

(* do_rotate(buf + off, len, rotn) *)
Definition do_rotate (fuel : nat) (buf : list byte) (off len rotn : Z)
  : result (list byte) :=
  do_rotate_loop fuel 0 buf off len rotn.

(** ** string.h: memcpy

    memcpy(dst + doff, src + soff, n).  Source and destination are distinct
    buffers here. *)
Definition memcpy (dst : list byte) (doff : Z) (src : list byte) (soff n : Z)
  : result (list byte) :=
  if (0 <=? doff) && (0 <=? soff) && (0 <=? n)
     && (soff + n <=? Z.of_nat (length src))
     && (doff + n <=? Z.of_nat (length dst))
  then Ret (take (Z.to_nat doff) dst
            ++ take (Z.to_nat n) (drop (Z.to_nat soff) src)
            ++ drop (Z.to_nat (doff + n)) dst)
  else UB.

(** ** The encrypt and decrypt callbacks

    What a call can change: the instance, the destination buffer, the cell
    [*result_lenp] and the state of the random number generator. *)

Record frame : Type := mkFrame {
  inst : MY_CRYPTO;
  dst : list byte;
  result_len : Z;
  rnd : rng
}.

(* rotate_decrypt(encryptor, session, src, src_len, dst, dst_len, result_lenp).
   [src] is [None] for NULL, else the bytes readable from [src] on.  The
   message printed to stderr before ENOMEM is left out. *)
Definition rotate_decrypt (fuel : nat) (f : frame)
    (src : option (list byte)) (src_len dst_len : Z) : result (Z * frame) :=
  let my_crypto := count_call (inst f) in
  match src with
  | None => Ret (0, mkFrame my_crypto (dst f) (result_len f) (rnd f))
  | Some s =>
      (* Make sure it is big enough. *)
      if dst_len <? sz (sz (src_len - CHKSUM_LEN) - IV_LEN) then
        Ret (ENOMEM, mkFrame my_crypto (dst f) (result_len f) (rnd f))
      else
        let i := u32 (CHKSUM_LEN + IV_LEN) in
        d1 ← memcpy (dst f) 0 s i dst_len;
        d2 ← do_rotate fuel d1 0 dst_len (u32 (26 - rot_N my_crypto));
        Ret (0, mkFrame my_crypto d2 dst_len (rnd f))
  end.

(* rotate_encrypt(encryptor, session, src, src_len, dst, dst_len, result_lenp).
   [dst f] holds the bytes writable from [dst] on, which may be more than
   the capacity [dst_len] the caller declares. *)
Definition rotate_encrypt (fuel : nat) (f : frame)
    (src : option (list byte)) (src_len dst_len : Z) : result (Z * frame) :=
  let my_crypto := count_call (inst f) in
  match src with
  | None => Ret (0, mkFrame my_crypto (dst f) (result_len f) (rnd f))
  | Some s =>
      if dst_len <? sz (sz (src_len + CHKSUM_LEN) + IV_LEN) then
        Ret (ENOMEM, mkFrame my_crypto (dst f) (result_len f) (rnd f))
      else
        let i := u32 (CHKSUM_LEN + IV_LEN) in
        d1 ← memcpy (dst f) i s 0 src_len;
        d2 ← do_rotate fuel d1 i src_len (rot_N my_crypto);
        (* Checksum the encrypted buffer and add the IV. *)
        let i := 0 in
        '(d3, r1) ← make_cksum d2 i (rnd f);
        let i := i + CHKSUM_LEN in
        '(d4, r2) ← make_iv d3 i r1;
        Ret (0, mkFrame my_crypto d4 dst_len r2)
  end.

(* rotate_sizing(encryptor, session, expansion_constantp): the instance
   after the call and the value stored in [*expansion_constantp]. *)
Definition rotate_sizing (my_crypto : MY_CRYPTO) : Z * MY_CRYPTO * Z :=
  (0, count_call my_crypto, sz (CHKSUM_LEN + IV_LEN)).

(** ** C strings

    A [string] stands for the characters of a char array.  Where C reads a
    NUL-terminated string, the end of the [string] is read as the
    terminator, and so is a NUL character inside it. *)

Definition NUL : ascii := Ascii.zero.

Definition char_val (c : ascii) : Z := Z.of_N (N_of_ascii c).

Definition strlen (s : string) : Z := Z.of_nat (String.length s).

(* strcmp(a, b): the difference at the first place where the two differ. *)
Fixpoint strcmp (a b : string) : Z :=
  match a, b with
  | EmptyString, EmptyString => 0
  | EmptyString, String y _ => 0 - char_val y
  | String x _, EmptyString => char_val x - 0
  | String x a', String y b' =>
      if Ascii.eqb x y then
        if Ascii.eqb x NUL then 0 else strcmp a' b'
      else char_val x - char_val y
  end.

(* strncmp(a, b, n): as strcmp, over at most [n] characters. *)
Fixpoint strncmp (a b : string) (n : nat) : Z :=
  match n with
  | O => 0
  | S n' =>
      match a, b with
      | EmptyString, EmptyString => 0
      | EmptyString, String y _ => 0 - char_val y
      | String x _, EmptyString => char_val x - 0
      | String x a', String y b' =>
          if Ascii.eqb x y then
            if Ascii.eqb x NUL then 0 else strncmp a' b' n'
          else char_val x - char_val y
      end
  end.

(* strncpy(dst, src, n): the [n] characters written to [dst].  Characters
   are copied up to a NUL of [src]; the rest is filled with NUL. *)
Fixpoint strncpy (src : string) (n : nat) : string :=
  match n with
  | O => EmptyString
  | S n' =>
      match src with
      | EmptyString => String NUL (strncpy EmptyString n')
      | String c rest =>
          if Ascii.eqb c NUL then String NUL (strncpy EmptyString n')
          else String c (strncpy rest n')
      end
  end.

(** ** Configuration items *)

(* WT_CONFIG_ITEM: [str] is the text [len] counts, the characters
   str[0..len-1] of the configuration string the item points into. *)
Record WT_CONFIG_ITEM : Type := mkItem { str : string }.

Definition len (item : WT_CONFIG_ITEM) : Z := strlen (str item).

(* #define ITEM_MATCHES(config_item, s) *)
Definition ITEM_MATCHES (config_item : WT_CONFIG_ITEM) (s : string) : bool :=
  (strlen s =? len config_item)
  && (strncmp (str config_item) s (Z.to_nat (len config_item)) =? 0).

(* WT_CONFIG_ARG: the configuration handed to customize. *)
Abbreviation WT_CONFIG_ARG := (gmap string string).

Definition WT_NOTFOUND : Z := -31803.

(** Modelled from the spec: [config_get] of the host's extension API
    (wiredtiger_ext.h and the engine are not part of the example).  The
    configuration is "a key/value string map" whose entries are "optional
    strings of arbitrary length".  A key that is present gives 0 and the
    item of its value.  For a key that is absent the call fails with
    WT_NOTFOUND; what the caller's item holds after that is not decided by
    the example, and [value] stands for it. *)
Definition config_get (config : WT_CONFIG_ARG) (key : string)
    (value : WT_CONFIG_ITEM) : Z * WT_CONFIG_ITEM :=
  match config !! key with
  | Some s => (0, mkItem s)
  | None => (WT_NOTFOUND, value)
  end.

(** ** The heap and the global instance *)

Inductive block : Type :=
| BCrypto (c : MY_CRYPTO)     (* a MY_CRYPTO structure *)
| BChars (s : string).        (* a char array *)

Record state : Type := mkState {
  my_crypto_global : MY_CRYPTO;     (* MY_CRYPTO my_crypto_global *)
  heap : gmap addr block;           (* the live blocks of malloc and calloc *)
  avail : nat;                      (* how many more allocations succeed *)
  released : list (addr * block)    (* the calls of free so far, latest first,
                                       each with what the block held *)
}.

(* A WT_ENCRYPTOR *: the global instance or a block of the heap. *)
Inductive eptr : Type :=
| Global                (* &my_crypto_global.encryptor *)
| Heap (a : addr).

#[global] Instance eptr_eq_dec : EqDecision eptr.
Proof. solve_decision. Defined.

(* malloc and calloc: NULL ([None]) when memory is exhausted, else a block
   at an address that was not live. *)
Definition malloc (st : state) (b : block) : option addr * state :=
  match avail st with
  | O => (None, st)
  | S n =>
      let a := fresh (dom (heap st)) in
      (Some a, mkState (my_crypto_global st) (<[a := b]> (heap st)) n (released st))
  end.

(* free(p) for p not NULL: p has to be live. *)
Definition free (st : state) (a : addr) : result state :=
  match heap st !! a with
  | Some b => Ret (mkState (my_crypto_global st) (delete a (heap st)) (avail st)
                     ((a, b) :: released st))
  | None => UB
  end.

(* if (p != NULL) free(p); *)
Definition free_if_set (st : state) (p : option addr) : result state :=
  match p with
  | Some a => free st a
  | None => Ret st
  end.

(* Reading and writing the structure behind a MY_CRYPTO *. *)
Definition load_crypto (st : state) (p : eptr) : result MY_CRYPTO :=
  match p with
  | Global => Ret (my_crypto_global st)
  | Heap a =>
      match heap st !! a with
      | Some (BCrypto c) => Ret c
      | _ => UB
      end
  end.

Definition store_crypto (st : state) (p : eptr) (c : MY_CRYPTO) : state :=
  match p with
  | Global => mkState c (heap st) (avail st) (released st)
  | Heap a =>
      mkState (my_crypto_global st) (<[a := BCrypto c]> (heap st)) (avail st)
        (released st)
  end.

(* Reading the char array behind a char *. *)
Definition load_chars (st : state) (a : addr) : result string :=
  match heap st !! a with
  | Some (BChars s) => Ret s
  | _ => UB
  end.

(** ** rotate_customize *)

(* The block of a stashed item:
     p = malloc(item.len + 1);
     strncpy(p, item.str, item.len + 1);
     p[item.len] = '\0';
   The last of the len + 1 characters strncpy writes is overwritten at
   once, so only the first [len] of them are read from the item. *)
Definition stashed (item : WT_CONFIG_ITEM) : block :=
  BChars (strncpy (str item) (Z.to_nat (len item)) ++ String NUL EmptyString).

Definition set_keyid (c : MY_CRYPTO) (p : addr) : MY_CRYPTO :=
  mkCrypto (rot_N c) (num_calls c) (Some p) (password c).

Definition set_password (c : MY_CRYPTO) (p : addr) : MY_CRYPTO :=
  mkCrypto (rot_N c) (num_calls c) (keyid c) (Some p).

(* if ((ret = config_get(...)) == 0 && item.len != 0) {
     if ((my_crypto->field = malloc(item.len + 1)) == NULL)
       return (errno);
     strncpy(...); my_crypto->field[item.len] = '\0';
   }
   [None] stands for the return in the middle; [c] is what the structure
   behind [my_crypto] holds. *)
Definition stash_item (st : state) (my_crypto : eptr) (c : MY_CRYPTO)
    (set_field : MY_CRYPTO -> addr -> MY_CRYPTO) (ret : Z) (item : WT_CONFIG_ITEM)
  : option (state * MY_CRYPTO) :=
  if (ret =? 0) && negb (len item =? 0) then
    match malloc st (stashed item) with
    | (None, _) => None
    | (Some p, st) =>
        let c := set_field c p in
        Some (store_crypto st my_crypto c, c)
    end
  else Some (st, c).

(* The rest of rotate_customize, from the first ITEM_MATCHES to the label
   err: the mapping of the key identifier to a rotation.  [a] is the block
   of [my_crypto] and [c] what it holds. *)
Definition customize_policy (st : state) (a : addr) (c : MY_CRYPTO)
    (keyid_item : WT_CONFIG_ITEM) (customp : option eptr)
  : result (Z * state * option eptr) :=
  let my_crypto := Heap a in
  let finish (rot : Z) :=
    (* my_crypto->rot_N = rot; ++my_crypto->num_calls;
       *customp = &my_crypto->encryptor; return (0); *)
    let c := count_call (mkCrypto rot (num_calls c) (keyid c) (password c)) in
    Ret (0, store_crypto st my_crypto c, Some my_crypto) in
  if ITEM_MATCHES keyid_item "system" then
    pw ← match password c with
         | None => Ret None
         | Some p => s ← load_chars st p; Ret (Some s)
         end;
    if match pw with
       | None => true                              (* password == NULL *)
       | Some s => negb (strcmp s SYS_PW =? 0)
       end
    then
      (* err: *)
      st ← free_if_set st (keyid c);
      st ← free_if_set st (password c);
      st ← free st a;
      Ret (EPERM, st, customp)
    else finish 13
  else if ITEM_MATCHES keyid_item USER1_KEYID then finish 4
  else if ITEM_MATCHES keyid_item USER2_KEYID then finish 19
  else Ret (EINVAL, st, customp).

(* rotate_customize(encryptor, session, encrypt_config, customp).
   [keyid0] and [secret0] are the contents of the automatic variables
   [keyid] and [secret] at entry: the function does not initialise them.
   [customp] is the content of [*customp] at entry; the result carries its
   content at return.  errno after a failed allocation is ENOMEM. *)
Definition rotate_customize (st : state) (encryptor : eptr)
    (encrypt_config : WT_CONFIG_ARG) (keyid0 secret0 : WT_CONFIG_ITEM)
    (customp : option eptr) : result (Z * state * option eptr) :=
  orig_crypto ← load_crypto st encryptor;
  match malloc st (BCrypto (mkCrypto 0 0 None None)) with
  | (None, st) => Ret (ENOMEM, st, customp)
  | (Some a, st) =>
    let my_crypto := Heap a in
    (* *my_crypto = *orig_crypto; my_crypto->keyid = my_crypto->password = NULL; *)
    let c := mkCrypto (rot_N orig_crypto) (num_calls orig_crypto) None None in
    let st := store_crypto st my_crypto c in
    (* Stash the keyid and the (optional) secret key. *)
    let '(ret, keyid_item) := config_get encrypt_config "keyid" keyid0 in
    match stash_item st my_crypto c set_keyid ret keyid_item with
    | None => Ret (ENOMEM, st, customp)
    | Some (st, c) =>
      let '(ret, secret_item) := config_get encrypt_config "secretkey" secret0 in
      match stash_item st my_crypto c set_password ret secret_item with
      | None => Ret (ENOMEM, st, customp)
      | Some (st, c) => customize_policy st a c keyid_item customp
      end
    end
  end.

(** ** rotate_terminate *)

(* rotate_terminate(encryptor, session) *)
Definition rotate_terminate (st : state) (encryptor : eptr) : result (Z * state) :=
  c ← load_crypto st encryptor;
  let c := count_call c in
  let st := store_crypto st encryptor c in
  (* Free the allocated memory. *)
  '(st, c) ← match password c with
             | Some p =>
                 st ← free st p;
                 let c := mkCrypto (rot_N c) (num_calls c) (keyid c) None in
                 Ret (store_crypto st encryptor c, c)
             | None => Ret (st, c)
             end;
  '(st, c) ← match keyid c with
             | Some p =>
                 st ← free st p;
                 let c := mkCrypto (rot_N c) (num_calls c) None (password c) in
                 Ret (store_crypto st encryptor c, c)
             | None => Ret (st, c)
             end;
  match encryptor with
  | Global => Ret (0, st)
  | Heap a => st ← free st a; Ret (0, st)
  end.

(** ** add_my_encryptors

    The global instance lives in static storage: all its members are zero
    until [add_my_encryptors] installs the callbacks and sets the count of
    calls to 0. *)
Definition add_my_encryptors (st : state) : state :=
  let m := my_crypto_global st in
  mkState (mkCrypto (rot_N m) 0 (keyid m) (password m)) (heap st) (avail st)
    (released st).

Definition startup (memory : nat) : state :=
  add_my_encryptors (mkState (mkCrypto 0 0 None None) ∅ memory []).

(** * Vocabulary of the properties *)

(* The rotation distances rotate_customize installs. *)
Definition valid_rot (p : Z) : Prop := p = 4 \/ p = 13 \/ p = 19.

(* The bytes [n] calls of random put into a buffer, and the generator
   after them. *)
Definition random_bytes (n : nat) (r : rng) : list byte :=
  (fun k => u8 (rand_seq r (rand_pos r + k)%nat)) <$> seq 0 n.

Definition advance (n : nat) (r : rng) : rng :=
  mkRng (rand_seq r) (rand_pos r + n).

(* Calls of rotate_encrypt and rotate_decrypt that are sure to return:
   the source is NULL, or the capacity is too small, or the text has fewer
   than 2^32 bytes, the buffers hold what the lengths announce and the
   fuel covers the text. *)
Definition encrypt_ready (fuel : nat) (f : frame) (src : option (list byte))
    (src_len dst_len : Z) : Prop :=
  match src with
  | None => True
  | Some s =>
      dst_len < (src_len + 20) mod SIZE_MOD
      \/ (0 <= src_len < UINT32_MOD
          /\ src_len <= Z.of_nat (length s)
          /\ src_len + 20 <= Z.of_nat (length (dst f))
          /\ (Z.to_nat src_len < fuel)%nat)
  end.

Definition decrypt_ready (fuel : nat) (f : frame) (src : option (list byte))
    (src_len dst_len : Z) : Prop :=
  match src with
  | None => True
  | Some s =>
      dst_len < (src_len - 20) mod SIZE_MOD
      \/ (0 <= dst_len < UINT32_MOD
          /\ 20 + dst_len <= Z.of_nat (length s)
          /\ dst_len <= Z.of_nat (length (dst f))
          /\ (Z.to_nat dst_len < fuel)%nat)
  end.

(* Whether rotate_customize stashes an item: the lookup succeeded and the
   item is not empty. *)
Definition found (ret : Z) (item : WT_CONFIG_ITEM) : bool :=
  (ret =? 0) && negb (len item =? 0).

(* A text without NUL.  The items of a configuration are such texts: the
   configuration string ends at its first NUL. *)
Fixpoint nul_free (s : string) : bool :=
  match s with
  | EmptyString => true
  | String c rest => negb (Ascii.eqb c NUL) && nul_free rest
  end.

(* The state [st2] in the middle of rotate_customize, entered in [st]: the
   new instance is the block [a], it holds [c], and nothing else changed
   but for the blocks of its strings. *)
Definition in_progress (st st2 : state) (a : addr) (c : MY_CRYPTO) : Prop :=
  heap st !! a = None
  /\ heap st2 !! a = Some (BCrypto c)
  /\ my_crypto_global st2 = my_crypto_global st
  /\ released st2 = released st
  /\ (forall k, keyid c = Some k ->
        k <> a /\ heap st !! k = None /\ exists s, heap st2 !! k = Some (BChars s))
  /\ (forall p, password c = Some p ->
        p <> a /\ heap st !! p = None /\ keyid c <> Some p
        /\ exists s, heap st2 !! p = Some (BChars s))
  /\ (forall b, b <> a -> keyid c <> Some b -> password c <> Some b ->
        heap st2 !! b = heap st !! b).

(* The entry the free of the string [p] adds to the log, [p] being read in
   the state [st]; nothing for NULL. *)
Definition release_entry (st : state) (p : option addr) : list (addr * block) :=
  match p with
  | Some a =>
      match heap st !! a with
      | Some b => [(a, b)]
      | None => []
      end
  | None => []
  end.

(* Whether the configuration holds a text that is not empty for [key]:
   the items rotate_customize makes a copy of. *)
Definition wanted (cfg : WT_CONFIG_ARG) (key : string) : bool :=
  match cfg !! key with
  | Some s => negb (strlen s =? 0)
  | None => false
  end.

(* The allocations of a rotate_customize that does not run out of memory:
   the structure and one block for each item it copies. *)
Definition allocations_needed (cfg : WT_CONFIG_ARG) : nat :=
  1 + (if wanted cfg "keyid" then 1 else 0) + (if wanted cfg "secretkey" then 1 else 0).

(** * Inputs of the examples *)

Definition no_rng : rng := mkRng (fun _ => 0) 0.
Definition ones_rng : rng := mkRng (fun _ => 255) 0.

(* An instance with rotation 13 in front of a destination of [n] zero
   bytes; [*result_lenp] holds 0. *)
Definition frame_of (n : nat) : frame :=
  mkFrame (mkCrypto 13 0 None None) (replicate n x00) 0 ones_rng.

Definition hello : list byte := list_byte_of_string "Hello".
Definition hello_frame : frame :=
  mkFrame (mkCrypto 13 0 None None) (replicate 25 x00) 0 no_rng.
Definition hello_back : list byte := replicate 5 x00.

(* A text of 4 GiB and a frame with room for its record. *)
Definition big_text : list byte := replicate (Z.to_nat UINT32_MOD) x00.
Definition big_frame : frame :=
  mkFrame (mkCrypto 13 0 None None)
    (replicate (Z.to_nat (UINT32_MOD + 20)) x00) 0 no_rng.

(* An instance that has served 2^32 - 1 calls. *)
Definition full_counter : MY_CRYPTO := mkCrypto 13 (UINT32_MOD - 1) None None.

(* The item of an empty text. *)
Definition no_item : WT_CONFIG_ITEM := mkItem EmptyString.

(* The configurations main uses, and one without keyid:
     encryption=(name=rotn,keyid=system,secretkey=system_password)
     encryption=(name=rotn,keyid=user1)
     encryption=(name=rotn,keyid=userbad)
     encryption=(name=rotn) *)
Definition system_config : WT_CONFIG_ARG :=
  <["keyid"%string := SYS_KEYID]> (<["secretkey"%string := SYS_PW]> ∅).
Definition user1_config : WT_CONFIG_ARG := <["keyid"%string := USER1_KEYID]> ∅.
Definition userbad_config : WT_CONFIG_ARG := <["keyid"%string := USERBAD_KEYID]> ∅.
Definition no_keyid_config : WT_CONFIG_ARG := ∅.

(* The states after rotate_customize on the template at startup, with
   three allocations left, for system_config and for user1_config: the
   instance is block 0, its strings are the blocks after it. *)
Definition system_instance_state : state :=
  mkState (mkCrypto 0 0 None None)
    (<[0%nat := BCrypto (mkCrypto 13 1 (Some 1%nat) (Some 2%nat))]>
       (<[1%nat := stashed (mkItem SYS_KEYID)]>
          (<[2%nat := stashed (mkItem SYS_PW)]> ∅)))
    0 [].

Definition user1_instance_state : state :=
  mkState (mkCrypto 0 0 None None)
    (<[0%nat := BCrypto (mkCrypto 4 1 (Some 1%nat) None)]>
       (<[1%nat := stashed (mkItem USER1_KEYID)]> ∅))
    1 [].

(* An instance for keyid user1 in front of a destination of [n] zero
   bytes, and an instance for keyid user2. *)
Definition user1_frame (n : nat) : frame :=
  mkFrame (mkCrypto 4 1 (Some 1%nat) None) (replicate n x00) 0 no_rng.
Definition user2_instance : MY_CRYPTO := mkCrypto 19 1 (Some 4%nat) None.

(* The configuration main reopens the connection with:
     encryption=(name=rotn,keyid=system,secretkey=bad_password) *)
Definition bad_password_config : WT_CONFIG_ARG :=
  <["keyid"%string := SYS_KEYID]> (<["secretkey"%string := SYS_BADPW]> ∅).

(* The state rotate_customize leaves on the template at startup, with
   three allocations left, for userbad_config. *)
Definition userbad_state : state :=
  mkState (mkCrypto 0 0 None None)
    (<[0%nat := BCrypto (mkCrypto 0 0 (Some 1%nat) None)]>
       (<[1%nat := stashed (mkItem USERBAD_KEYID)]> ∅))
    1 [].

(* The state after rotate_terminate on the instance of
   user1_instance_state. *)
Definition user1_released_state : state :=
  mkState (mkCrypto 0 0 None None) ∅ 1
    [(0%nat, BCrypto (mkCrypto 4 2 None None)); (1%nat, stashed (mkItem USER1_KEYID))].

(** * Properties *)

(** ** Machine integers *)

Lemma u32_small z : 0 <= z < UINT32_MOD -> u32 z = z.
Proof. intros H. unfold u32. apply Z.mod_small. exact H. Qed.

Lemma u32_range z : 0 <= u32 z < UINT32_MOD.
Proof. unfold u32. apply Z.mod_pos_bound. reflexivity. Qed.

(* src_len - CHKSUM_LEN - IV_LEN in size_t arithmetic *)
Lemma sz_sub_header n :
  sz (sz (n - CHKSUM_LEN) - IV_LEN) = (n - 20) mod SIZE_MOD.
Proof.
  unfold sz, CHKSUM_LEN, IV_LEN. rewrite Zminus_mod_idemp_l. f_equal. lia.
Qed.

(* src_len + CHKSUM_LEN + IV_LEN in size_t arithmetic *)
Lemma sz_add_header n :
  sz (sz (n + CHKSUM_LEN) + IV_LEN) = (n + 20) mod SIZE_MOD.
Proof.
  unfold sz, CHKSUM_LEN, IV_LEN. rewrite Zplus_mod_idemp_l. f_equal. lia.
Qed.

(** ** The rotation of one byte *)

(* Rotating back by 26 - p undoes the rotation by p. *)
Lemma rotate_byte_inverse p b :
  valid_rot p -> rotate_byte (u32 (26 - p)) (rotate_byte p b) = b.
Proof.
  intros [-> | [-> | ->]]; destruct b; vm_compute; reflexivity.
Qed.

Lemma rotate_bytes_inverse p (x : list byte) :
  valid_rot p -> rotate_byte (u32 (26 - p)) <$> (rotate_byte p <$> x) = x.
Proof.
  intros Hp. induction x as [| b x IH]; simpl; [reflexivity |].
  rewrite rotate_byte_inverse by exact Hp. f_equal. exact IH.
Qed.

(* Bytes that are not letters are left alone; letters keep their case. *)
Lemma rotate_byte_not_alpha rotn b : isalpha b = false -> rotate_byte rotn b = b.
Proof. intros H. unfold rotate_byte. rewrite H. reflexivity. Qed.

Lemma rotate_byte_case p b :
  valid_rot p ->
  islower (rotate_byte p b) = islower b /\ isupper (rotate_byte p b) = isupper b.
Proof.
  intros [-> | [-> | ->]]; destruct b; vm_compute; split; reflexivity.
Qed.

(* On a letter the rotation is cyclic in the alphabet of its case. *)
Lemma rotate_byte_cyclic p b :
  valid_rot p ->
  (islower b = true ->
   byte_val (rotate_byte p b) = 97 + (byte_val b - 97 + p) mod 26)
  /\ (isupper b = true ->
      byte_val (rotate_byte p b) = 65 + (byte_val b - 65 + p) mod 26).
Proof.
  intros [-> | [-> | ->]]; destruct b; vm_compute; split; intros H;
    first [reflexivity | discriminate H].
Qed.

(** ** The loop of do_rotate *)

(* The loop from index [length done] on: the part of the region already
   rotated is [done], the part still to rotate [todo]. *)
Lemma do_rotate_loop_spec rotn pre post todo :
  forall (fuel : nat) (done : list byte) (len : Z),
    len = Z.of_nat (length done) + Z.of_nat (length todo) ->
    len < UINT32_MOD ->
    (length todo < fuel)%nat ->
    do_rotate_loop fuel (Z.of_nat (length done)) (pre ++ done ++ todo ++ post)
      (Z.of_nat (length pre)) len rotn
    = Ret (pre ++ done ++ (rotate_byte rotn <$> todo) ++ post).
Proof.
  induction todo as [| b todo IH]; intros fuel done len Hlen Hmax Hfuel;
    (destruct fuel as [| fuel]; [simpl in Hfuel; lia |]);
    cbn [do_rotate_loop].
  - replace (Z.of_nat (length done) <? len) with false
      by (symmetry; apply Z.ltb_ge; simpl in Hlen; lia).
    reflexivity.
  - replace (Z.of_nat (length done) <? len) with true
      by (symmetry; apply Z.ltb_lt; simpl in Hlen; lia).
    assert (Hidx : Z.to_nat (Z.of_nat (length pre) + Z.of_nat (length done))
                   = length (pre ++ done)).
    { rewrite length_app. lia. }
    rewrite Hidx.
    replace ((0 <=? Z.of_nat (length pre) + Z.of_nat (length done))
             && (Z.of_nat (length pre) + Z.of_nat (length done)
                 <? Z.of_nat (length (pre ++ done ++ (b :: todo) ++ post))))
      with true.
    2:{ symmetry. apply andb_true_iff. split; [apply Z.leb_le; lia |].
        apply Z.ltb_lt. rewrite !length_app. simpl. lia. }
    replace (pre ++ done ++ (b :: todo) ++ post)
      with ((pre ++ done) ++ b :: (todo ++ post))
      by (rewrite <- !app_assoc; reflexivity).
    rewrite list_lookup_middle by reflexivity.
    rewrite insert_app_r_alt by reflexivity.
    rewrite Nat.sub_diag. cbn [insert list_insert].
    rewrite u32_small by (simpl in Hlen; unfold UINT32_MOD in *; lia).
    specialize (IH fuel (done ++ [rotate_byte rotn b]) len).
    rewrite length_app in IH. simpl length in IH.
    replace (Z.of_nat (length done + 1)) with (Z.of_nat (length done) + 1) in IH by lia.
    replace ((pre ++ done) ++ rotate_byte rotn b :: todo ++ post)
      with (pre ++ (done ++ [rotate_byte rotn b]) ++ todo ++ post)
      by (rewrite <- !app_assoc; reflexivity).
    rewrite IH by (simpl in Hlen, Hfuel; lia).
    rewrite <- !app_assoc. reflexivity.
Qed.

(* do_rotate on a region of fewer than 2^32 bytes rotates each byte of the
   region and nothing else; fuel above the length is enough. *)
Lemma do_rotate_spec (fuel : nat) rotn (pre mid post : list byte) :
  Z.of_nat (length mid) < UINT32_MOD ->
  (length mid < fuel)%nat ->
  do_rotate fuel (pre ++ mid ++ post) (Z.of_nat (length pre))
    (Z.of_nat (length mid)) rotn
  = Ret (pre ++ (rotate_byte rotn <$> mid) ++ post).
Proof.
  intros Hmax Hfuel. unfold do_rotate.
  apply (do_rotate_loop_spec rotn pre post mid fuel [] (Z.of_nat (length mid)));
    [simpl; lia | exact Hmax | exact Hfuel].
Qed.

(* With a length of 2^32 or more the 32-bit index never reaches the
   length: as long as the accesses stay inside the buffer the loop goes
   on, whatever the fuel. *)
Lemma do_rotate_loop_never_exits rotn off len :
  UINT32_MOD <= len ->
  forall (fuel : nat) (i : Z) (buf : list byte),
    0 <= i < UINT32_MOD ->
    0 <= off -> off + UINT32_MOD <= Z.of_nat (length buf) ->
    do_rotate_loop fuel i buf off len rotn = OutOfFuel.
Proof.
  intros Hlen. induction fuel as [| fuel IH]; intros i buf Hi Hoff Hbuf.
  - reflexivity.
  - cbn [do_rotate_loop].
    replace (i <? len) with true by (symmetry; apply Z.ltb_lt; lia).
    replace ((0 <=? off + i) && (off + i <? Z.of_nat (length buf))) with true
      by (symmetry; apply andb_true_iff; split;
          [apply Z.leb_le | apply Z.ltb_lt]; lia).
    destruct (lookup_lt_is_Some_2 buf (Z.to_nat (off + i))) as [b Hb]; [lia |].
    rewrite Hb. apply IH.
    + apply u32_range.
    + exact Hoff.
    + rewrite length_insert. exact Hbuf.
Qed.

(** ** memcpy and the header *)

Lemma split_buffer (l : list byte) (a b : nat) :
  (a + b <= length l)%nat ->
  exists l1 l2 l3, l = l1 ++ l2 ++ l3 /\ length l1 = a /\ length l2 = b.
Proof.
  intros H. exists (take a l), (take b (drop a l)), (drop b (drop a l)).
  rewrite !take_drop. rewrite !length_take, length_drop.
  split; [reflexivity | lia].
Qed.

Lemma memcpy_spec (pre mid post s1 s2 s3 : list byte) :
  length mid = length s2 ->
  memcpy (pre ++ mid ++ post) (Z.of_nat (length pre))
         (s1 ++ s2 ++ s3) (Z.of_nat (length s1)) (Z.of_nat (length s2))
  = Ret (pre ++ s2 ++ post).
Proof.
  intros Hmid. unfold memcpy.
  replace (_ && _ && _ && _ && _) with true.
  2:{ symmetry. rewrite !andb_true_iff, !Z.leb_le, !length_app. lia. }
  f_equal. rewrite !Nat2Z.id.
  rewrite take_app_length, drop_app_length, take_app_length.
  replace (Z.to_nat (Z.of_nat (length pre) + Z.of_nat (length s2)))
    with (length pre + length mid)%nat by lia.
  rewrite drop_app_add, drop_app_length. reflexivity.
Qed.

Lemma memcpy_ok d doff s soff n :
  0 <= doff -> 0 <= soff -> 0 <= n ->
  soff + n <= Z.of_nat (length s) -> doff + n <= Z.of_nat (length d) ->
  exists d', memcpy d doff s soff n = Ret d' /\ length d' = length d.
Proof.
  intros H1 H2 H3 H4 H5. unfold memcpy.
  replace (_ && _ && _ && _ && _) with true
    by (symmetry; rewrite !andb_true_iff, !Z.leb_le; lia).
  eexists. split; [reflexivity |].
  rewrite !length_app, !length_take, !length_drop. lia.
Qed.

Lemma fill_random_spec pre post todo :
  forall (done : list byte) (r : rng),
    fill_random (length todo) (pre ++ done ++ todo ++ post)
      (Z.of_nat (length pre)) (Z.of_nat (length done)) r
    = Ret (pre ++ done ++ random_bytes (length todo) r ++ post,
           advance (length todo) r).
Proof.
  induction todo as [| b todo IH]; intros done r.
  - simpl. destruct r as [f p]. unfold advance. simpl.
    rewrite Nat.add_0_r. reflexivity.
  - cbn [length fill_random].
    replace ((0 <=? Z.of_nat (length pre) + Z.of_nat (length done))
             && (Z.of_nat (length pre) + Z.of_nat (length done)
                 <? Z.of_nat (length (pre ++ done ++ (b :: todo) ++ post))))
      with true.
    2:{ symmetry. apply andb_true_iff. split; [apply Z.leb_le; lia |].
        apply Z.ltb_lt. rewrite !length_app. simpl. lia. }
    cbn [random].
    replace (Z.to_nat (Z.of_nat (length pre) + Z.of_nat (length done)))
      with (length (pre ++ done)) by (rewrite length_app; lia).
    replace (pre ++ done ++ (b :: todo) ++ post)
      with ((pre ++ done) ++ b :: (todo ++ post))
      by (rewrite <- !app_assoc; reflexivity).
    rewrite insert_app_r_alt by reflexivity.
    rewrite Nat.sub_diag. cbn [insert list_insert].
    set (v := u8 (rand_seq r (rand_pos r))).
    specialize (IH (done ++ [v]) (mkRng (rand_seq r) (S (rand_pos r)))).
    rewrite length_app in IH. simpl length in IH.
    replace (Z.of_nat (length done + 1)) with (Z.of_nat (length done) + 1) in IH by lia.
    replace ((pre ++ done) ++ v :: todo ++ post)
      with (pre ++ (done ++ [v]) ++ todo ++ post)
      by (rewrite <- !app_assoc; reflexivity).
    rewrite IH. f_equal. f_equal.
    + unfold random_bytes. cbn [seq fmap list_fmap]. rewrite <- !app_assoc.
      cbn [app]. rewrite Nat.add_0_r. fold v.
      rewrite <- seq_shift, <- list_fmap_compose.
      replace ((λ k : nat, u8 (rand_seq r (rand_pos r + k)%nat)) ∘ S <$> seq 0 (length todo))
        with ((λ k : nat, u8 (rand_seq r (S (rand_pos r) + k)%nat)) <$> seq 0 (length todo));
        [reflexivity |].
      apply list_fmap_ext. intros _ k _. simpl. f_equal. f_equal. lia.
    + unfold advance. simpl. f_equal. lia.
Qed.

(** ** The callbacks on well-sized buffers *)

(* rotate_encrypt with room for the record: the destination receives a
   fresh header and the rotated text, and the capacity is reported. *)
Lemma rotate_encrypt_spec (fuel : nat) (f : frame)
    (x xs h4 h16 body post : list byte) (dst_len : Z) :
  dst f = h4 ++ h16 ++ body ++ post ->
  length h4 = 4%nat -> length h16 = 16%nat -> length body = length x ->
  Z.of_nat (length x) < UINT32_MOD ->
  (length x < fuel)%nat ->
  Z.of_nat (length x) + 20 <= dst_len ->
  rotate_encrypt fuel f (Some (x ++ xs)) (Z.of_nat (length x)) dst_len
  = Ret (0, mkFrame (count_call (inst f))
              (random_bytes 4 (rnd f) ++ random_bytes 16 (advance 4 (rnd f))
               ++ (rotate_byte (rot_N (inst f)) <$> x) ++ post)
              dst_len (advance 20 (rnd f))).
Proof.
  intros Hdst H4 H16 Hbody Hmax Hfuel Hcap. unfold rotate_encrypt.
  rewrite sz_add_header.
  rewrite Z.mod_small by (unfold UINT32_MOD, SIZE_MOD in *; lia).
  replace (dst_len <? Z.of_nat (length x) + 20) with false
    by (symmetry; apply Z.ltb_ge; lia).
  change (u32 (CHKSUM_LEN + IV_LEN)) with (Z.of_nat 20).
  rewrite Hdst.
  assert (Hh : length (h4 ++ h16) = 20%nat) by (rewrite length_app; lia).
  rewrite <- Hh.
  replace (h4 ++ h16 ++ body ++ post) with ((h4 ++ h16) ++ body ++ post)
    by (rewrite <- !app_assoc; reflexivity).
  pose proof (memcpy_spec (h4 ++ h16) body post [] x xs Hbody) as Hcpy.
  cbn [app length] in Hcpy. change (Z.of_nat 0) with 0 in Hcpy.
  rewrite Hcpy. cbn [mbind result_bind].
  rewrite do_rotate_spec by assumption. cbn [mbind result_bind].
  unfold make_cksum, make_iv.
  change (Z.to_nat CHKSUM_LEN) with 4%nat. change (Z.to_nat IV_LEN) with 16%nat.
  rewrite <- H4 at 1.
  pose proof (fill_random_spec [] (h16 ++ (rotate_byte (rot_N (count_call (inst f))) <$> x) ++ post)
                h4 [] (rnd f)) as Hck.
  cbn [app length] in Hck. change (Z.of_nat 0) with 0 in Hck.
  rewrite <- app_assoc. rewrite Hck. cbn [mbind result_bind].
  rewrite H4.
  rewrite <- H16 at 1.
  pose proof (fill_random_spec (random_bytes 4 (rnd f))
                ((rotate_byte (rot_N (count_call (inst f))) <$> x) ++ post)
                h16 [] (advance 4 (rnd f))) as Hiv.
  cbn [app length] in Hiv. change (Z.of_nat 0) with 0 in Hiv.
  replace (Z.of_nat (length (random_bytes 4 (rnd f)))) with (0 + CHKSUM_LEN) in Hiv
    by (unfold random_bytes; rewrite length_fmap, length_seq; reflexivity).
  rewrite Hiv. cbn [mbind result_bind]. rewrite H16.
  do 3 f_equal. unfold advance. simpl. f_equal. lia.
Qed.

(* rotate_decrypt with room for [dst_len] bytes of text: the destination
   receives the [dst_len] bytes after the header, rotated back, and
   [dst_len] is reported. *)
Lemma rotate_decrypt_spec (fuel : nat) (f : frame)
    (hdr body xs d post : list byte) (src_len : Z) :
  dst f = d ++ post ->
  length hdr = 20%nat -> length d = length body ->
  Z.of_nat (length body) < UINT32_MOD ->
  (length body < fuel)%nat ->
  (src_len - 20) mod SIZE_MOD <= Z.of_nat (length body) ->
  rotate_decrypt fuel f (Some (hdr ++ body ++ xs)) src_len (Z.of_nat (length body))
  = Ret (0, mkFrame (count_call (inst f))
              ((rotate_byte (u32 (26 - rot_N (inst f))) <$> body) ++ post)
              (Z.of_nat (length body)) (rnd f)).
Proof.
  intros Hdst Hhdr Hd Hmax Hfuel Hcap. unfold rotate_decrypt.
  rewrite sz_sub_header.
  replace (Z.of_nat (length body) <? (src_len - 20) mod SIZE_MOD) with false
    by (symmetry; apply Z.ltb_ge; lia).
  change (u32 (CHKSUM_LEN + IV_LEN)) with (Z.of_nat 20).
  rewrite Hdst, <- Hhdr.
  pose proof (memcpy_spec [] d post hdr body xs Hd) as Hcpy.
  cbn [app length] in Hcpy. change (Z.of_nat 0) with 0 in Hcpy.
  rewrite Hcpy. cbn [mbind result_bind].
  pose proof (do_rotate_spec fuel (u32 (26 - rot_N (count_call (inst f)))) [] body post
                Hmax Hfuel) as Hrot.
  cbn [app length] in Hrot. change (Z.of_nat 0) with 0 in Hrot.
  rewrite Hrot. reflexivity.
Qed.

(* A text of 2^32 bytes or more: rotate_encrypt does not return. *)
Lemma rotate_encrypt_diverges (fuel : nat) (f : frame) (s : list byte)
    (src_len dst_len : Z) :
  UINT32_MOD <= src_len ->
  src_len <= Z.of_nat (length s) ->
  src_len + 20 <= Z.of_nat (length (dst f)) ->
  (src_len + 20) mod SIZE_MOD <= dst_len ->
  rotate_encrypt fuel f (Some s) src_len dst_len = OutOfFuel.
Proof.
  intros Hbig Hs Hd Hcap. unfold rotate_encrypt.
  rewrite sz_add_header.
  replace (dst_len <? (src_len + 20) mod SIZE_MOD) with false
    by (symmetry; apply Z.ltb_ge; lia).
  change (u32 (CHKSUM_LEN + IV_LEN)) with 20.
  destruct (memcpy_ok (dst f) 20 s 0 src_len) as (d1 & -> & Hlen);
    try (unfold UINT32_MOD in *; lia).
  cbn [mbind result_bind]. unfold do_rotate.
  rewrite do_rotate_loop_never_exits; [reflexivity | exact Hbig | | lia |].
  - unfold UINT32_MOD. lia.
  - rewrite Hlen. unfold UINT32_MOD in *. lia.
Qed.

(** ** Round trip *)

(** X16.  Round trip below 2^32 bytes: for every text [x] of fewer than
    2^32 bytes and every instance whose rotation [p] is 4, 13 or 19,
    rotate_encrypt into a capacity of [length x + 20] returns 0 and reports
    [length x + 20] bytes, the bytes after the 20-byte header being [x]
    with every byte rotated by [p]; rotate_decrypt of that record, given
    the reported length and a capacity of that length minus 20, rotates by
    26 minus [p], which is (26 - p) mod 26, returns 0, reports [length x]
    bytes and gives back exactly [x].  What lies in the destination beyond
    the capacity is left as it was.  The rotation by [p] leaves every byte
    that is not a letter unchanged, keeps the case of a letter, and moves
    a letter by [p] places in its alphabet, cyclically: the lower-case
    letter of rank [k] becomes the one of rank [(k + p) mod 26], and so
    for upper case. *)
Theorem rotate_roundtrip (fuel : nat) (f : frame) (x d2 : list byte) (res2 : Z) :
  valid_rot (rot_N (inst f)) ->
  Z.of_nat (length x) < UINT32_MOD ->
  (length x < fuel)%nat ->
  (length x + 20 <= length (dst f))%nat ->
  (length x <= length d2)%nat ->
  exists f1 f2,
    rotate_encrypt fuel f (Some x) (Z.of_nat (length x)) (Z.of_nat (length x) + 20)
    = Ret (0, f1)
    /\ result_len f1 = Z.of_nat (length x) + 20
    /\ take (length x) (drop 20 (dst f1)) = (rotate_byte (rot_N (inst f)) <$> x)
    /\ rotate_decrypt fuel (mkFrame (inst f1) d2 res2 (rnd f1))
         (Some (dst f1)) (result_len f1) (result_len f1 - 20)
       = Ret (0, f2)
    /\ take (length x) (dst f2) = x
    /\ result_len f2 = Z.of_nat (length x)
    /\ drop (length x) (dst f2) = drop (length x) d2
    /\ u32 (26 - rot_N (inst f)) = (26 - rot_N (inst f)) mod 26
    /\ (forall b, isalpha b = false -> rotate_byte (rot_N (inst f)) b = b)
    /\ (forall b, islower (rotate_byte (rot_N (inst f)) b) = islower b
                  /\ isupper (rotate_byte (rot_N (inst f)) b) = isupper b)
    /\ (forall b,
          (islower b = true ->
           byte_val (rotate_byte (rot_N (inst f)) b)
           = 97 + (byte_val b - 97 + rot_N (inst f)) mod 26)
          /\ (isupper b = true ->
              byte_val (rotate_byte (rot_N (inst f)) b)
              = 65 + (byte_val b - 65 + rot_N (inst f)) mod 26)).
Proof.
  intros Hp Hmax Hfuel Hdst Hd2.
  assert (Hlaws :
            u32 (26 - rot_N (inst f)) = (26 - rot_N (inst f)) mod 26
            /\ (forall b, isalpha b = false -> rotate_byte (rot_N (inst f)) b = b)
            /\ (forall b, islower (rotate_byte (rot_N (inst f)) b) = islower b
                          /\ isupper (rotate_byte (rot_N (inst f)) b) = isupper b)
            /\ (forall b,
                  (islower b = true ->
                   byte_val (rotate_byte (rot_N (inst f)) b)
                   = 97 + (byte_val b - 97 + rot_N (inst f)) mod 26)
                  /\ (isupper b = true ->
                      byte_val (rotate_byte (rot_N (inst f)) b)
                      = 65 + (byte_val b - 65 + rot_N (inst f)) mod 26))).
  { split; [destruct Hp as [-> | [-> | ->]]; reflexivity |].
    split; [intros b; apply rotate_byte_not_alpha |].
    split; [intros b; apply rotate_byte_case; exact Hp |].
    intros b. apply rotate_byte_cyclic. exact Hp. }
  destruct (split_buffer (dst f) 20 (length x)) as (hdr & body & post & Hf & Hhdr & Hbody);
    [lia |].
  destruct (split_buffer hdr 4 16) as (h4 & h16 & tl & Hh & H4 & H16); [lia |].
  assert (tl = []) as ->.
  { apply nil_length_inv. rewrite Hh, !length_app in Hhdr. lia. }
  rewrite app_nil_r in Hh. subst hdr.
  destruct (split_buffer d2 0 (length x)) as (e & d & post2 & Hd & He & Hdlen); [lia |].
  apply nil_length_inv in He. subst e. cbn [app] in Hd.
  pose proof (rotate_encrypt_spec fuel f x [] h4 h16 body post
                (Z.of_nat (length x) + 20)) as Henc.
  rewrite app_nil_r in Henc.
  rewrite Henc; [| rewrite Hf, <- app_assoc; reflexivity | assumption.. | lia].
  clear Henc.
  eexists. eexists. split; [reflexivity |]. cbn [result_len dst inst rnd].
  set (hd := random_bytes 4 (rnd f) ++ random_bytes 16 (advance 4 (rnd f))).
  assert (Hhd : length hd = 20%nat).
  { unfold hd, random_bytes. rewrite length_app, !length_fmap, !length_seq. reflexivity. }
  replace (random_bytes 4 (rnd f) ++ random_bytes 16 (advance 4 (rnd f))
           ++ (rotate_byte (rot_N (inst f)) <$> x) ++ post)
    with (hd ++ (rotate_byte (rot_N (inst f)) <$> x) ++ post)
    by (unfold hd; rewrite <- app_assoc; reflexivity).
  split; [reflexivity |].
  split.
  { rewrite <- Hhd, drop_app_length. apply take_app_length'.
    rewrite length_fmap. reflexivity. }
  replace (Z.of_nat (length x) + 20 - 20)
    with (Z.of_nat (length (rotate_byte (rot_N (inst f)) <$> x)))
    by (rewrite length_fmap; lia).
  rewrite (rotate_decrypt_spec fuel _ hd (rotate_byte (rot_N (inst f)) <$> x) post d post2).
  - split; [reflexivity |]. cbn [dst result_len inst rot_N count_call].
    rewrite rotate_bytes_inverse by exact Hp.
    rewrite take_app_length, drop_app_length, length_fmap.
    split; [reflexivity |]. split; [reflexivity |].
    split; [rewrite Hd, <- Hdlen, drop_app_length; reflexivity | exact Hlaws].
  - exact Hd.
  - exact Hhd.
  - rewrite length_fmap. exact Hdlen.
  - rewrite length_fmap. exact Hmax.
  - rewrite length_fmap. exact Hfuel.
  - rewrite length_fmap.
    replace (Z.of_nat (length x) + 20 - 20) with (Z.of_nat (length x)) by lia.
    rewrite Z.mod_small; [lia | unfold UINT32_MOD, SIZE_MOD in *; lia].
Qed.

(** X16 on the text Hello with rotation 13. *)
Lemma rotate_roundtrip_witness :
  exists f1 f2,
    rotate_encrypt 6 hello_frame (Some hello) (Z.of_nat (length hello))
      (Z.of_nat (length hello) + 20) = Ret (0, f1)
    /\ result_len f1 = Z.of_nat (length hello) + 20
    /\ take (length hello) (drop 20 (dst f1))
       = (rotate_byte (rot_N (inst hello_frame)) <$> hello)
    /\ rotate_decrypt 6 (mkFrame (inst f1) hello_back 0 (rnd f1))
         (Some (dst f1)) (result_len f1) (result_len f1 - 20)
       = Ret (0, f2)
    /\ take (length hello) (dst f2) = hello
    /\ result_len f2 = Z.of_nat (length hello)
    /\ drop (length hello) (dst f2) = drop (length hello) hello_back
    /\ u32 (26 - rot_N (inst hello_frame)) = (26 - rot_N (inst hello_frame)) mod 26
    /\ (forall b, isalpha b = false -> rotate_byte (rot_N (inst hello_frame)) b = b)
    /\ (forall b, islower (rotate_byte (rot_N (inst hello_frame)) b) = islower b
                  /\ isupper (rotate_byte (rot_N (inst hello_frame)) b) = isupper b)
    /\ (forall b,
          (islower b = true ->
           byte_val (rotate_byte (rot_N (inst hello_frame)) b)
           = 97 + (byte_val b - 97 + rot_N (inst hello_frame)) mod 26)
          /\ (isupper b = true ->
              byte_val (rotate_byte (rot_N (inst hello_frame)) b)
              = 65 + (byte_val b - 65 + rot_N (inst hello_frame)) mod 26)).
Proof.
  apply (rotate_roundtrip 6 hello_frame hello hello_back 0).
  - right. left. reflexivity.
  - reflexivity.
  - vm_compute. lia.
  - vm_compute. lia.
  - vm_compute. lia.
Defined.

(** C1 at an input where it fails: a text of 2^32 bytes, with a
    destination that has room for its record and an instance of rotation
    13.  Whatever the fuel, rotate_encrypt does not return: the index of
    the loop of do_rotate is a uint32_t that is compared with the size_t
    length, so it wraps to 0 before it reaches the length and the loop
    never exits.  There is no record to decode. *)
Lemma rotate_encrypt_4GiB_never_returns :
  ~ exists fuel out,
      rotate_encrypt fuel big_frame (Some big_text) UINT32_MOD (UINT32_MOD + 20)
      = Ret out.
Proof.
  intros (fuel & out & H).
  rewrite rotate_encrypt_diverges in H; [discriminate | | | |].
  - lia.
  - unfold big_text. rewrite length_replicate. unfold UINT32_MOD. lia.
  - unfold big_frame. cbn [dst]. rewrite length_replicate. unfold UINT32_MOD. lia.
  - vm_compute. discriminate.
Qed.

(** ** Lengths *)




(** ** No input *)

(** C6, as amended.  With an absent (NULL) input rotate_encrypt and
    rotate_decrypt return 0, count the call and leave the destination, the
    generator and the cell of the result length as they were: no length is
    reported.  An input that is present and has length zero is treated as
    any other: rotate_decrypt returns ENOMEM for every capacity below
    2^64 - 20; rotate_encrypt returns ENOMEM for a capacity below 20 and
    otherwise writes the 20 bytes of a fresh header and reports the
    capacity. *)
Theorem absent_input_is_a_noop (fuel : nat) (f : frame) (s : list byte)
    (src_len dst_len : Z) :
  rotate_encrypt fuel f None src_len dst_len
  = Ret (0, mkFrame (count_call (inst f)) (dst f) (result_len f) (rnd f))
  /\ rotate_decrypt fuel f None src_len dst_len
     = Ret (0, mkFrame (count_call (inst f)) (dst f) (result_len f) (rnd f))
  /\ (0 <= dst_len < SIZE_MOD - 20 ->
      rotate_decrypt fuel f (Some s) 0 dst_len
      = Ret (ENOMEM, mkFrame (count_call (inst f)) (dst f) (result_len f) (rnd f)))
  /\ (dst_len < 20 ->
      rotate_encrypt fuel f (Some s) 0 dst_len
      = Ret (ENOMEM, mkFrame (count_call (inst f)) (dst f) (result_len f) (rnd f)))
  /\ (20 <= dst_len -> (20 <= length (dst f))%nat -> (0 < fuel)%nat ->
      rotate_encrypt fuel f (Some s) 0 dst_len
      = Ret (0, mkFrame (count_call (inst f))
                  (random_bytes 4 (rnd f) ++ random_bytes 16 (advance 4 (rnd f))
                   ++ drop 20 (dst f))
                  dst_len (advance 20 (rnd f)))).
Proof.
  split; [reflexivity |]. split; [reflexivity |]. split; [| split].
  - intros H. unfold rotate_decrypt.
    replace (dst_len <? sz (sz (0 - CHKSUM_LEN) - IV_LEN)) with true
      by (symmetry; apply Z.ltb_lt; change (sz (sz (0 - CHKSUM_LEN) - IV_LEN))
            with (SIZE_MOD - 20); lia).
    reflexivity.
  - intros H. unfold rotate_encrypt.
    replace (dst_len <? sz (sz (0 + CHKSUM_LEN) + IV_LEN)) with true
      by (symmetry; apply Z.ltb_lt; change (sz (sz (0 + CHKSUM_LEN) + IV_LEN))
            with 20; lia).
    reflexivity.
  - intros Hcap Hdst Hfuel.
    destruct (split_buffer (dst f) 4 16) as (h4 & h16 & post & Hf & H4 & H16); [lia |].
    pose proof (rotate_encrypt_spec fuel f [] s h4 h16 [] post dst_len) as H.
    cbn [app length fmap list_fmap] in H. change (Z.of_nat 0) with 0 in H.
    rewrite H; try assumption; try reflexivity; try lia.
    do 4 f_equal. rewrite Hf.
    replace 20%nat with (length h4 + length h16)%nat by lia.
    rewrite drop_app_add, drop_app_length. reflexivity.
Qed.

(** C6, as amended, on a destination of 20 bytes. *)
Lemma absent_input_is_a_noop_witness :
  rotate_encrypt 1 (frame_of 20) None 0 20
  = Ret (0, mkFrame (count_call (inst (frame_of 20))) (dst (frame_of 20))
              (result_len (frame_of 20)) (rnd (frame_of 20)))
  /\ rotate_decrypt 1 (frame_of 20) (Some []) 0 20
     = Ret (ENOMEM, mkFrame (count_call (inst (frame_of 20))) (dst (frame_of 20))
                      (result_len (frame_of 20)) (rnd (frame_of 20)))
  /\ rotate_encrypt 1 (frame_of 20) (Some []) 0 19
     = Ret (ENOMEM, mkFrame (count_call (inst (frame_of 20))) (dst (frame_of 20))
                      (result_len (frame_of 20)) (rnd (frame_of 20)))
  /\ rotate_encrypt 1 (frame_of 20) (Some []) 0 20
     = Ret (0, mkFrame (count_call (inst (frame_of 20)))
                 (random_bytes 4 (rnd (frame_of 20))
                  ++ random_bytes 16 (advance 4 (rnd (frame_of 20)))
                  ++ drop 20 (dst (frame_of 20)))
                 20 (advance 20 (rnd (frame_of 20)))).
Proof.
  destruct (absent_input_is_a_noop 1 (frame_of 20) [] 0 20) as (H1 & _ & H3 & _ & H5).
  destruct (absent_input_is_a_noop 1 (frame_of 20) [] 0 19) as (_ & _ & _ & H4 & _).
  split; [exact H1 |].
  split; [apply H3; split; [discriminate | reflexivity] |].
  split; [apply H4; reflexivity |].
  apply H5; [discriminate | vm_compute; lia | lia].
Defined.

(** C6 as stated fails on an input of length zero that is present:
    rotate_encrypt with a capacity of 20 writes 20 header bytes into the
    destination and reports 20 bytes, and rotate_decrypt with a capacity
    of 20 returns ENOMEM. *)
Lemma zero_length_input_is_not_a_noop :
  (exists f1,
     rotate_encrypt 1 (frame_of 20) (Some []) 0 20 = Ret (0, f1)
     /\ result_len f1 = 20
     /\ dst f1 = replicate 20 xff
     /\ dst f1 <> dst (frame_of 20))
  /\ (exists g1, rotate_decrypt 1 (frame_of 20) (Some []) 0 20 = Ret (ENOMEM, g1)).
Proof.
  split.
  - eexists. split; [vm_compute; reflexivity |].
    split; [reflexivity |]. split; [reflexivity |]. vm_compute. discriminate.
  - eexists. vm_compute. reflexivity.
Qed.

(** ** Capacity *)

(** C7.  For every text [x] that is not empty and whose record length
    [length x + 20] is a size_t value, rotate_encrypt with a capacity one
    byte short of [length x + 20] returns ENOMEM and leaves destination and
    result length as they were; for every record [r] of at least 20 bytes,
    rotate_decrypt with a capacity one byte short of [length r - 20] does
    the same. *)
Theorem one_byte_short_is_ENOMEM (fuel : nat) (f g : frame) (x r : list byte)
    (cap_e cap_d : Z) :
  x <> [] ->
  Z.of_nat (length x) + 20 < SIZE_MOD ->
  cap_e + 1 = Z.of_nat (length x) + 20 ->
  20 <= Z.of_nat (length r) < SIZE_MOD ->
  0 <= cap_d ->
  cap_d + 1 = Z.of_nat (length r) - 20 ->
  rotate_encrypt fuel f (Some x) (Z.of_nat (length x)) cap_e
  = Ret (ENOMEM, mkFrame (count_call (inst f)) (dst f) (result_len f) (rnd f))
  /\ rotate_decrypt fuel g (Some r) (Z.of_nat (length r)) cap_d
     = Ret (ENOMEM, mkFrame (count_call (inst g)) (dst g) (result_len g) (rnd g)).
Proof.
  intros _ Hx He Hr Hd0 Hd. split.
  - unfold rotate_encrypt. rewrite sz_add_header.
    rewrite Z.mod_small by lia.
    replace (cap_e <? Z.of_nat (length x) + 20) with true
      by (symmetry; apply Z.ltb_lt; lia).
    reflexivity.
  - unfold rotate_decrypt. rewrite sz_sub_header.
    rewrite Z.mod_small by lia.
    replace (cap_d <? Z.of_nat (length r) - 20) with true
      by (symmetry; apply Z.ltb_lt; lia).
    reflexivity.
Qed.

(** C7 on the text Hello (capacity 24) and a record of 25 bytes
    (capacity 4). *)
Lemma one_byte_short_is_ENOMEM_witness :
  rotate_encrypt 6 hello_frame (Some hello) (Z.of_nat (length hello)) 24
  = Ret (ENOMEM, mkFrame (count_call (inst hello_frame)) (dst hello_frame)
                   (result_len hello_frame) (rnd hello_frame))
  /\ rotate_decrypt 6 (frame_of 5) (Some (replicate 25 x61))
       (Z.of_nat (length (replicate 25 x61))) 4
     = Ret (ENOMEM, mkFrame (count_call (inst (frame_of 5))) (dst (frame_of 5))
                      (result_len (frame_of 5)) (rnd (frame_of 5))).
Proof.
  apply (one_byte_short_is_ENOMEM 6 hello_frame (frame_of 5) hello (replicate 25 x61) 24 4).
  - discriminate.
  - reflexivity.
  - reflexivity.
  - split; [discriminate | reflexivity].
  - discriminate.
  - reflexivity.
Defined.

(** C10.  For a source that is not NULL and whose length is strictly
    between 0 and 20, the size rotate_decrypt requires,
    src_len - CHKSUM_LEN - IV_LEN in size_t arithmetic, wraps to
    2^64 - 20 + src_len; for every capacity below that value the call
    returns ENOMEM and leaves destination and result length as they
    were. *)
Theorem short_record_is_ENOMEM (fuel : nat) (f : frame) (s : list byte)
    (src_len dst_len : Z) :
  0 < src_len < 20 ->
  0 <= dst_len < SIZE_MOD - 20 + src_len ->
  sz (sz (src_len - CHKSUM_LEN) - IV_LEN) = SIZE_MOD - 20 + src_len
  /\ rotate_decrypt fuel f (Some s) src_len dst_len
     = Ret (ENOMEM, mkFrame (count_call (inst f)) (dst f) (result_len f) (rnd f)).
Proof.
  intros Hs Hd.
  assert (Hwrap : sz (sz (src_len - CHKSUM_LEN) - IV_LEN) = SIZE_MOD - 20 + src_len).
  { rewrite sz_sub_header.
    replace (src_len - 20) with (SIZE_MOD - 20 + src_len + (-1) * SIZE_MOD) by lia.
    rewrite Z.mod_add by (unfold SIZE_MOD; lia).
    apply Z.mod_small. unfold SIZE_MOD. lia. }
  split; [exact Hwrap |].
  unfold rotate_decrypt. rewrite Hwrap.
  replace (dst_len <? SIZE_MOD - 20 + src_len) with true
    by (symmetry; apply Z.ltb_lt; lia).
  reflexivity.
Qed.

(** C10 on a record of 7 bytes and a capacity of 64. *)
Lemma short_record_is_ENOMEM_witness :
  sz (sz (7 - CHKSUM_LEN) - IV_LEN) = SIZE_MOD - 20 + 7
  /\ rotate_decrypt 1 (frame_of 64) (Some (replicate 7 x61)) 7 64
     = Ret (ENOMEM, mkFrame (count_call (inst (frame_of 64))) (dst (frame_of 64))
                      (result_len (frame_of 64)) (rnd (frame_of 64))).
Proof.
  apply (short_record_is_ENOMEM 1 (frame_of 64) (replicate 7 x61) 7 64).
  - split; reflexivity.
  - split; [discriminate | reflexivity].
Defined.

(** ** C strings *)

Lemma char_val_inj x y : char_val x = char_val y -> x = y.
Proof.
  unfold char_val. intros H.
  apply N2Z.inj in H.
  rewrite <- (ascii_N_embedding x), <- (ascii_N_embedding y), H. reflexivity.
Qed.

Lemma char_val_NUL x : char_val x = 0 -> x = NUL.
Proof. intros H. apply char_val_inj. rewrite H. reflexivity. Qed.

Lemma strncpy_nul_free s :
  nul_free s = true -> strncpy s (String.length s) = s.
Proof.
  induction s as [| c s IH]; [reflexivity |]. cbn [nul_free String.length strncpy].
  intros H. apply andb_true_iff in H as [Hc Hs].
  destruct (Ascii.eqb c NUL); [discriminate |]. rewrite IH by exact Hs. reflexivity.
Qed.

Lemma strcmp_cons x a y b :
  strcmp (String x a) (String y b)
  = if Ascii.eqb x y then (if Ascii.eqb x NUL then 0 else strcmp a b)
    else char_val x - char_val y.
Proof. reflexivity. Qed.

Lemma append_cons x (a s : string) : (String x a ++ s)%string = String x (a ++ s).
Proof. reflexivity. Qed.

Lemma append_empty (s : string) : (EmptyString ++ s)%string = s.
Proof. reflexivity. Qed.

(* strcmp of a terminated copy against a literal is 0 exactly for the same
   text. *)
Lemma strcmp_terminated a b :
  nul_free a = true -> nul_free b = true ->
  (strcmp (a ++ String NUL EmptyString) b = 0 <-> a = b).
Proof.
  revert b. induction a as [| x a IH]; intros [| y b] Ha Hb;
    rewrite ?append_empty, ?append_cons.
  - split; reflexivity.
  - rewrite strcmp_cons.
    cbn [nul_free] in Hb. apply andb_true_iff in Hb as [Hy _].
    rewrite Ascii.eqb_sym. destruct (Ascii.eqb y NUL) eqn:E; [discriminate |].
    split; [| discriminate]. intros H.
    assert (char_val y = 0) as Hy0 by (change (char_val NUL) with 0 in H; lia).
    apply char_val_NUL in Hy0. subst y. rewrite Ascii.eqb_refl in E. discriminate.
  - cbn [nul_free] in Ha. apply andb_true_iff in Ha as [Hx _].
    change (strcmp (String x (a ++ String NUL "")) "") with (char_val x - 0).
    split; [| discriminate]. intros H.
    assert (char_val x = 0) as Hx0 by lia.
    apply char_val_NUL in Hx0. subst x. discriminate.
  - rewrite strcmp_cons. cbn [nul_free] in Ha, Hb.
    apply andb_true_iff in Ha as [Hx Ha]. apply andb_true_iff in Hb as [Hy Hb].
    destruct (Ascii.eqb x y) eqn:E.
    + apply Ascii.eqb_eq in E. subst y.
      destruct (Ascii.eqb x NUL); [discriminate |].
      rewrite (IH b Ha Hb). split; [intros ->; reflexivity | intros [= ->]; reflexivity].
    + split.
      * intros H. assert (char_val x = char_val y) as Hxy by lia.
        apply char_val_inj in Hxy. subst y. rewrite Ascii.eqb_refl in E. discriminate.
      * intros [= -> _]. rewrite Ascii.eqb_refl in E. discriminate.
Qed.

Lemma strncmp_same s n : strncmp s s n = 0.
Proof.
  revert s. induction n as [| n IH]; intros [| x s]; cbn [strncmp]; try reflexivity.
  rewrite Ascii.eqb_refl. destruct (Ascii.eqb x NUL); [reflexivity | apply IH].
Qed.

Lemma strncmp_0_eq a s :
  nul_free s = true -> String.length s = String.length a ->
  strncmp a s (String.length a) = 0 -> a = s.
Proof.
  revert s. induction a as [| x a IH]; intros [| y s] Hs Hlen; try discriminate.
  - reflexivity.
  - cbn [String.length strncmp nul_free] in *.
    apply andb_true_iff in Hs as [Hy Hs].
    destruct (Ascii.eqb x y) eqn:E.
    + apply Ascii.eqb_eq in E. subst y.
      destruct (Ascii.eqb x NUL); [discriminate |].
      intros H. f_equal. apply IH; [exact Hs | lia | exact H].
    + intros H. assert (char_val x = char_val y) as Hxy by lia.
      apply char_val_inj in Hxy. subst y. rewrite Ascii.eqb_refl in E. discriminate.
Qed.

(* ITEM_MATCHES compares the text of the item with the literal. *)
Lemma ITEM_MATCHES_iff (item : WT_CONFIG_ITEM) (s : string) :
  nul_free s = true -> (ITEM_MATCHES item s = true <-> str item = s).
Proof.
  intros Hs. unfold ITEM_MATCHES, len, strlen. rewrite Nat2Z.id. split.
  - intros H. apply andb_true_iff in H as [Hlen Hcmp].
    apply Z.eqb_eq in Hlen. apply Z.eqb_eq in Hcmp.
    apply strncmp_0_eq; [exact Hs | lia | exact Hcmp].
  - intros <-. rewrite Z.eqb_refl, strncmp_same. reflexivity.
Qed.

Lemma ITEM_MATCHES_other (item : WT_CONFIG_ITEM) (s : string) :
  nul_free s = true -> str item <> s -> ITEM_MATCHES item s = false.
Proof.
  intros Hs Hne. destruct (ITEM_MATCHES item s) eqn:E; [| reflexivity].
  apply ITEM_MATCHES_iff in E; [contradiction | exact Hs].
Qed.

Lemma config_get_present (cfg : WT_CONFIG_ARG) (key s : string) (v : WT_CONFIG_ITEM) :
  cfg !! key = Some s -> config_get cfg key v = (0, mkItem s).
Proof. intros H. unfold config_get. rewrite H. reflexivity. Qed.

Lemma config_get_absent (cfg : WT_CONFIG_ARG) (key : string) (v : WT_CONFIG_ITEM) :
  cfg !! key = None -> config_get cfg key v = (WT_NOTFOUND, v).
Proof. intros H. unfold config_get. rewrite H. reflexivity. Qed.

(** ** The heap *)

Lemma malloc_spec (st : state) (b : block) :
  match malloc st b with
  | (None, st') => avail st = 0%nat /\ st' = st
  | (Some a, st') =>
      heap st !! a = None
      /\ heap st' = <[a := b]> (heap st)
      /\ my_crypto_global st' = my_crypto_global st
      /\ released st' = released st
      /\ avail st = S (avail st')
  end.
Proof.
  unfold malloc. destruct (avail st) as [| n]; [split; reflexivity |].
  cbn [heap my_crypto_global released avail].
  split; [| repeat split].
  apply not_elem_of_dom. apply is_fresh.
Qed.

Lemma free_live (st : state) (a : addr) (b : block) :
  heap st !! a = Some b ->
  free st a = Ret (mkState (my_crypto_global st) (delete a (heap st)) (avail st)
                     ((a, b) :: released st)).
Proof. intros H. unfold free. rewrite H. reflexivity. Qed.

Lemma stash_item_spec (st : state) (a : addr) (c : MY_CRYPTO)
    (set_field : MY_CRYPTO -> addr -> MY_CRYPTO) (ret : Z) (item : WT_CONFIG_ITEM) :
  match stash_item st (Heap a) c set_field ret item with
  | None => avail st = 0%nat /\ found ret item = true
  | Some (st', c') =>
      (found ret item = false /\ st' = st /\ c' = c)
      \/ (exists p,
            found ret item = true /\ c' = set_field c p
            /\ heap st !! p = None
            /\ heap st' = <[a := BCrypto c']> (<[p := stashed item]> (heap st))
            /\ my_crypto_global st' = my_crypto_global st
            /\ released st' = released st
            /\ avail st = S (avail st'))
  end.
Proof.
  unfold stash_item. fold (found ret item).
  destruct (found ret item); [| left; repeat split].
  pose proof (malloc_spec st (stashed item)) as Hm.
  destruct (malloc st (stashed item)) as [[p |] st1].
  - destruct Hm as (Hfresh & Hheap & Hglob & Hrel & Hav).
    right. exists p. cbn [store_crypto heap my_crypto_global released avail].
    rewrite Hheap. repeat split; assumption.
  - destruct Hm as [Hav _]. split; [exact Hav | reflexivity].
Qed.

(** ** rotate_customize up to the choice of the rotation *)

Lemma in_progress_start (st : state) (a : addr) (b : block) (c : MY_CRYPTO) :
  heap st !! a = None ->
  keyid c = None -> password c = None ->
  in_progress st
    (mkState (my_crypto_global st) (<[a := BCrypto c]> (<[a := b]> (heap st)))
       (avail st - 1) (released st)) a c.
Proof.
  intros Ha Hk Hp. unfold in_progress. cbn [heap my_crypto_global released].
  split; [exact Ha |]. split; [apply lookup_insert_eq |].
  split; [reflexivity |]. split; [reflexivity |].
  split; [intros k Hk'; congruence |].
  split; [intros p Hp'; congruence |].
  intros b' Hb' _ _. rewrite !lookup_insert_ne by congruence. reflexivity.
Qed.

(* A block that is not live in the middle of the call was not live at
   entry, and it is none of the blocks of the instance. *)
Lemma in_progress_fresh (st st2 : state) (a : addr) (c : MY_CRYPTO) (p : addr) :
  in_progress st st2 a c -> heap st2 !! p = None ->
  p <> a /\ keyid c <> Some p /\ password c <> Some p /\ heap st !! p = None.
Proof.
  intros (Ha & Ha2 & _ & _ & Hk & Hp & Hframe) Hfresh.
  assert (p <> a) by (intros ->; congruence).
  assert (keyid c <> Some p).
  { intros E. destruct (Hk p E) as (_ & _ & s & Hs). congruence. }
  assert (password c <> Some p).
  { intros E. destruct (Hp p E) as (_ & _ & _ & s & Hs). congruence. }
  repeat split; try assumption.
  rewrite <- Hframe by assumption. exact Hfresh.
Qed.

Lemma in_progress_keyid (st st1 st2 : state) (a : addr) (c c' : MY_CRYPTO)
    (ret : Z) (item : WT_CONFIG_ITEM) :
  in_progress st st1 a c ->
  keyid c = None -> password c = None ->
  stash_item st1 (Heap a) c set_keyid ret item = Some (st2, c') ->
  in_progress st st2 a c'
  /\ password c' = None /\ rot_N c' = rot_N c /\ num_calls c' = num_calls c
  /\ (avail st1 <= S (avail st2))%nat.
Proof.
  intros Hin Hk Hp Hstash.
  pose proof (stash_item_spec st1 a c set_keyid ret item) as Hspec.
  rewrite Hstash in Hspec.
  destruct Hspec as [(_ & -> & ->) | (p & _ & -> & Hfresh & Hheap & Hglob & Hrel & Hav)].
  { split; [exact Hin |]. repeat split; try assumption. lia. }
  destruct (in_progress_fresh _ _ _ _ _ Hin Hfresh) as (Hpa & _ & _ & Hp0).
  destruct Hin as (Ha & Ha1 & Hg & Hr & _ & _ & Hframe).
  split; [| repeat split; try assumption; lia].
  unfold in_progress. cbn [keyid password set_keyid]. rewrite Hheap, Hglob, Hrel.
  split; [exact Ha |]. split; [apply lookup_insert_eq |].
  split; [exact Hg |]. split; [exact Hr |].
  split.
  { intros k [= <-]. split; [exact Hpa |]. split; [exact Hp0 |].
    unfold stashed. eexists. rewrite lookup_insert_ne by congruence.
    apply lookup_insert_eq. }
  split; [intros q Hq; congruence |].
  intros b Hb Hbk _. rewrite !lookup_insert_ne by congruence.
  apply Hframe; congruence.
Qed.

Lemma in_progress_password (st st1 st2 : state) (a : addr) (c c' : MY_CRYPTO)
    (ret : Z) (item : WT_CONFIG_ITEM) :
  in_progress st st1 a c ->
  password c = None ->
  stash_item st1 (Heap a) c set_password ret item = Some (st2, c') ->
  in_progress st st2 a c'
  /\ keyid c' = keyid c /\ rot_N c' = rot_N c /\ num_calls c' = num_calls c
  /\ (avail st1 <= S (avail st2))%nat
  /\ match password c' with
     | Some p => found ret item = true /\ heap st2 !! p = Some (stashed item)
     | None => found ret item = false
     end.
Proof.
  intros Hin Hp Hstash.
  pose proof (stash_item_spec st1 a c set_password ret item) as Hspec.
  rewrite Hstash in Hspec.
  destruct Hspec as [(Hnf & -> & ->) | (p & Hf & -> & Hfresh & Hheap & Hglob & Hrel & Hav)].
  { split; [exact Hin |]. repeat split; [lia |].
    rewrite Hp. exact Hnf. }
  destruct (in_progress_fresh _ _ _ _ _ Hin Hfresh) as (Hpa & Hpk & _ & Hp0).
  destruct Hin as (Ha & Ha1 & Hg & Hr & Hkey & _ & Hframe).
  assert (Hlive : heap st2 !! p = Some (stashed item)).
  { rewrite Hheap, lookup_insert_ne by congruence. apply lookup_insert_eq. }
  split; [| repeat split; try assumption; try reflexivity; lia].
  unfold in_progress. cbn [keyid password set_password]. rewrite Hheap, Hglob, Hrel.
  split; [exact Ha |]. split; [apply lookup_insert_eq |].
  split; [exact Hg |]. split; [exact Hr |].
  split.
  { intros k Hk. destruct (Hkey k Hk) as (Hka & Hk0 & s & Hs).
    split; [exact Hka |]. split; [exact Hk0 |]. exists s.
    rewrite !lookup_insert_ne by congruence. exact Hs. }
  split.
  { intros q [= <-]. split; [exact Hpa |]. split; [exact Hp0 |].
    split; [exact Hpk |]. unfold stashed. eexists.
    rewrite lookup_insert_ne by congruence. apply lookup_insert_eq. }
  intros b Hb Hbk Hbp. rewrite !lookup_insert_ne by congruence.
  apply Hframe; congruence.
Qed.

(* rotate_customize either runs out of memory on the way, which takes fewer
   than three allocations left, or reaches the choice of the rotation with
   the new instance in progress. *)
Lemma customize_setup (st : state) (e : eptr) (orig : MY_CRYPTO)
    (cfg : WT_CONFIG_ARG) (k0 s0 : WT_CONFIG_ITEM) (cp : option eptr) :
  load_crypto st e = Ret orig ->
  (exists st', rotate_customize st e cfg k0 s0 cp = Ret (ENOMEM, st', cp)
               /\ (avail st < 3)%nat)
  \/ (exists a st2 c2,
        rotate_customize st e cfg k0 s0 cp
        = customize_policy st2 a c2 (config_get cfg "keyid" k0).2 cp
        /\ in_progress st st2 a c2
        /\ rot_N c2 = rot_N orig /\ num_calls c2 = num_calls orig
        /\ match password c2 with
           | Some p =>
               found (config_get cfg "secretkey" s0).1 (config_get cfg "secretkey" s0).2 = true
               /\ heap st2 !! p = Some (stashed (config_get cfg "secretkey" s0).2)
           | None =>
               found (config_get cfg "secretkey" s0).1 (config_get cfg "secretkey" s0).2 = false
           end).
Proof.
  intros Hload. unfold rotate_customize. rewrite Hload. cbn [mbind result_bind].
  pose proof (malloc_spec st (BCrypto (mkCrypto 0 0 None None))) as Hm.
  destruct (malloc st (BCrypto (mkCrypto 0 0 None None))) as [[a |] st1].
  2:{ destruct Hm as [Hav ->]. left. eexists. split; [reflexivity | lia]. }
  destruct Hm as (Ha & Hheap & Hglob & Hrel & Hav).
  set (c0 := mkCrypto (rot_N orig) (num_calls orig) None None).
  assert (Hin0 : in_progress st (store_crypto st1 (Heap a) c0) a c0).
  { pose proof (in_progress_start st a (BCrypto (mkCrypto 0 0 None None)) c0 Ha
                  eq_refl eq_refl) as H.
    unfold store_crypto. rewrite Hheap, Hglob, Hrel.
    replace (avail st1) with (avail st - 1)%nat by lia. exact H. }
  destruct (config_get cfg "keyid" k0) as [ret kitem] eqn:Hck. cbn [snd].
  destruct (stash_item (store_crypto st1 (Heap a) c0) (Heap a) c0 set_keyid ret kitem)
    as [[st2 c1] |] eqn:Hs1.
  2:{ pose proof (stash_item_spec (store_crypto st1 (Heap a) c0) a c0 set_keyid ret kitem) as H.
      rewrite Hs1 in H. destruct H as [Hav1 _]. cbn [store_crypto avail] in Hav1.
      left. eexists. split; [reflexivity | lia]. }
  destruct (in_progress_keyid _ _ _ _ _ _ _ _ Hin0 eq_refl eq_refl Hs1)
    as (Hin1 & Hp1 & Hr1 & Hn1 & Hav1).
  cbn [store_crypto avail] in Hav1.
  destruct (config_get cfg "secretkey" s0) as [ret2 sitem] eqn:Hcs. cbn [fst snd].
  destruct (stash_item st2 (Heap a) c1 set_password ret2 sitem) as [[st3 c2] |] eqn:Hs2.
  2:{ pose proof (stash_item_spec st2 a c1 set_password ret2 sitem) as H.
      rewrite Hs2 in H. destruct H as [Hav2 _].
      left. eexists. split; [reflexivity | lia]. }
  destruct (in_progress_password _ _ _ _ _ _ _ _ Hin1 Hp1 Hs2)
    as (Hin2 & Hk2 & Hr2 & Hn2 & Hav2 & Hpw).
  right. exists a, st3, c2.
  split; [reflexivity |]. split; [exact Hin2 |].
  split; [rewrite Hr2, Hr1; reflexivity |].
  split; [rewrite Hn2, Hn1; reflexivity |].
  exact Hpw.
Qed.

(* With three allocations left the choice of the rotation is reached. *)
Lemma customize_setup_ok (st : state) (e : eptr) (orig : MY_CRYPTO)
    (cfg : WT_CONFIG_ARG) (k0 s0 : WT_CONFIG_ITEM) (cp : option eptr) :
  load_crypto st e = Ret orig ->
  (3 <= avail st)%nat ->
  exists a st2 c2,
    rotate_customize st e cfg k0 s0 cp
    = customize_policy st2 a c2 (config_get cfg "keyid" k0).2 cp
    /\ in_progress st st2 a c2
    /\ rot_N c2 = rot_N orig /\ num_calls c2 = num_calls orig
    /\ match password c2 with
       | Some p =>
           found (config_get cfg "secretkey" s0).1 (config_get cfg "secretkey" s0).2 = true
           /\ heap st2 !! p = Some (stashed (config_get cfg "secretkey" s0).2)
       | None =>
           found (config_get cfg "secretkey" s0).1 (config_get cfg "secretkey" s0).2 = false
       end.
Proof.
  intros Hload Hav.
  destruct (customize_setup st e orig cfg k0 s0 cp Hload) as [(st' & _ & H) | H];
    [lia | exact H].
Qed.

(** ** The choice of the rotation *)

(* The end of a successful rotate_customize. *)
Lemma customize_policy_user (st : state) (a : addr) (c : MY_CRYPTO)
    (item : WT_CONFIG_ITEM) (cp : option eptr) (n : Z) :
  (str item = USER1_KEYID /\ n = 4) \/ (str item = USER2_KEYID /\ n = 19) ->
  customize_policy st a c item cp
  = Ret (0, store_crypto st (Heap a)
              (count_call (mkCrypto n (num_calls c) (keyid c) (password c))),
         Some (Heap a)).
Proof.
  intros H. unfold customize_policy.
  destruct H as [[Hk ->] | [Hk ->]].
  - rewrite (ITEM_MATCHES_other item "system") by (first [reflexivity | rewrite Hk; discriminate]).
    replace (ITEM_MATCHES item USER1_KEYID) with true
      by (symmetry; apply ITEM_MATCHES_iff; [reflexivity | exact Hk]).
    reflexivity.
  - rewrite (ITEM_MATCHES_other item "system") by (first [reflexivity | rewrite Hk; discriminate]).
    rewrite (ITEM_MATCHES_other item USER1_KEYID) by (first [reflexivity | rewrite Hk; discriminate]).
    replace (ITEM_MATCHES item USER2_KEYID) with true
      by (symmetry; apply ITEM_MATCHES_iff; [reflexivity | exact Hk]).
    reflexivity.
Qed.

Lemma customize_policy_system (st : state) (a p : addr) (c : MY_CRYPTO)
    (item : WT_CONFIG_ITEM) (cp : option eptr) :
  str item = SYS_KEYID ->
  password c = Some p ->
  heap st !! p = Some (stashed (mkItem SYS_PW)) ->
  customize_policy st a c item cp
  = Ret (0, store_crypto st (Heap a)
              (count_call (mkCrypto 13 (num_calls c) (keyid c) (password c))),
         Some (Heap a)).
Proof.
  intros Hk Hp Hlive. unfold customize_policy.
  replace (ITEM_MATCHES item "system") with true
    by (symmetry; apply ITEM_MATCHES_iff; [reflexivity | exact Hk]).
  rewrite Hp. unfold load_chars. rewrite Hlive. reflexivity.
Qed.

(* rotate_customize returns 0 only through the end that installs the
   rotation, counts the call and hands the instance back. *)
Lemma customize_policy_success (st : state) (a : addr) (c : MY_CRYPTO)
    (item : WT_CONFIG_ITEM) (cp cp' : option eptr) (st' : state) :
  customize_policy st a c item cp = Ret (0, st', cp') ->
  exists n,
    (n = 13 \/ n = 4 \/ n = 19)
    /\ st' = store_crypto st (Heap a)
               (count_call (mkCrypto n (num_calls c) (keyid c) (password c)))
    /\ cp' = Some (Heap a).
Proof.
  unfold customize_policy.
  destruct (ITEM_MATCHES item "system").
  - destruct (match password c with
              | Some p => s ← load_chars st p; Ret (Some s)
              | None => Ret None
              end) as [pw | |]; cbn [mbind result_bind]; try discriminate.
    destruct (match pw with Some s => negb (strcmp s SYS_PW =? 0) | None => true end).
    + destruct (free_if_set st (keyid c)) as [st1 | |];
        cbn [mbind result_bind]; try discriminate.
      destruct (free_if_set st1 (password c)) as [st2 | |];
        cbn [mbind result_bind]; try discriminate.
      destruct (free st2 a) as [st3 | |]; cbn [mbind result_bind]; discriminate.
    + intros [= <- <-]. exists 13. auto.
  - destruct (ITEM_MATCHES item USER1_KEYID).
    + intros [= <- <-]. exists 4. auto.
    + destruct (ITEM_MATCHES item USER2_KEYID).
      * intros [= <- <-]. exists 19. auto.
      * discriminate.
Qed.

(** ** The failure paths of rotate_customize *)

(* The code at the label err releases the strings and the instance: the
   heap is again what it was when rotate_customize was entered. *)
Lemma customize_err_unwinds (st st2 : state) (a : addr) (c : MY_CRYPTO)
    (cp : option eptr) :
  in_progress st st2 a c ->
  exists st',
    (s1 ← free_if_set st2 (keyid c);
     s2 ← free_if_set s1 (password c);
     s3 ← free s2 a;
     Ret (EPERM, s3, cp)) = Ret (EPERM, st', cp)
    /\ heap st' = heap st
    /\ my_crypto_global st' = my_crypto_global st.
Proof.
  intros (Ha & Ha2 & Hglob & _ & Hkey & Hpass & Hframe).
  destruct (keyid c) as [k |] eqn:Hk; destruct (password c) as [p |] eqn:Hp;
    cbn [free_if_set].
  - destruct (Hkey k eq_refl) as (Hka & Hk0 & sk & Hsk).
    destruct (Hpass p eq_refl) as (Hpa & Hp0 & Hpk & sp & Hsp).
    assert (k <> p) by congruence.
    rewrite (free_live st2 k _ Hsk). cbn [mbind result_bind].
    rewrite (free_live _ p (BChars sp))
      by (cbn [heap]; rewrite lookup_delete_ne by congruence; exact Hsp).
    cbn [mbind result_bind].
    rewrite (free_live _ a (BCrypto c))
      by (cbn [heap]; rewrite !lookup_delete_ne by congruence; exact Ha2).
    cbn [mbind result_bind heap my_crypto_global].
    eexists. split; [reflexivity |]. cbn [heap my_crypto_global].
    split; [| exact Hglob]. apply map_eq. intros b.
    destruct (decide (b = a)) as [-> |];
      [rewrite lookup_delete_eq; congruence |].
    rewrite lookup_delete_ne by congruence.
    destruct (decide (b = p)) as [-> |];
      [rewrite lookup_delete_eq; congruence |].
    rewrite lookup_delete_ne by congruence.
    destruct (decide (b = k)) as [-> |];
      [rewrite lookup_delete_eq; congruence |].
    rewrite lookup_delete_ne by congruence.
    apply Hframe; congruence.
  - destruct (Hkey k eq_refl) as (Hka & Hk0 & sk & Hsk).
    rewrite (free_live st2 k _ Hsk). cbn [mbind result_bind].
    rewrite (free_live _ a (BCrypto c))
      by (cbn [heap]; rewrite !lookup_delete_ne by congruence; exact Ha2).
    cbn [mbind result_bind heap my_crypto_global].
    eexists. split; [reflexivity |]. cbn [heap my_crypto_global].
    split; [| exact Hglob]. apply map_eq. intros b.
    destruct (decide (b = a)) as [-> |];
      [rewrite lookup_delete_eq; congruence |].
    rewrite lookup_delete_ne by congruence.
    destruct (decide (b = k)) as [-> |];
      [rewrite lookup_delete_eq; congruence |].
    rewrite lookup_delete_ne by congruence.
    apply Hframe; congruence.
  - destruct (Hpass p eq_refl) as (Hpa & Hp0 & Hpk & sp & Hsp).
    cbn [mbind result_bind].
    rewrite (free_live st2 p _ Hsp). cbn [mbind result_bind].
    rewrite (free_live _ a (BCrypto c))
      by (cbn [heap]; rewrite !lookup_delete_ne by congruence; exact Ha2).
    cbn [mbind result_bind heap my_crypto_global].
    eexists. split; [reflexivity |]. cbn [heap my_crypto_global].
    split; [| exact Hglob]. apply map_eq. intros b.
    destruct (decide (b = a)) as [-> |];
      [rewrite lookup_delete_eq; congruence |].
    rewrite lookup_delete_ne by congruence.
    destruct (decide (b = p)) as [-> |];
      [rewrite lookup_delete_eq; congruence |].
    rewrite lookup_delete_ne by congruence.
    apply Hframe; congruence.
  - cbn [mbind result_bind].
    rewrite (free_live st2 a _ Ha2).
    cbn [mbind result_bind heap my_crypto_global].
    eexists. split; [reflexivity |]. cbn [heap my_crypto_global].
    split; [| exact Hglob]. apply map_eq. intros b.
    destruct (decide (b = a)) as [-> |];
      [rewrite lookup_delete_eq; congruence |].
    rewrite lookup_delete_ne by congruence.
    apply Hframe; congruence.
Qed.

(* keyid=system without the system password: EPERM, no instance handed
   back, nothing left allocated. *)
Lemma customize_system_EPERM (st : state) (e : eptr) (orig : MY_CRYPTO)
    (cfg : WT_CONFIG_ARG) (k0 s0 : WT_CONFIG_ITEM) (cp : option eptr) :
  load_crypto st e = Ret orig ->
  (3 <= avail st)%nat ->
  cfg !! "keyid"%string = Some SYS_KEYID ->
  cfg !! "secretkey"%string = None
  \/ (exists s, cfg !! "secretkey"%string = Some s
                /\ nul_free s = true /\ s <> SYS_PW) ->
  exists st',
    rotate_customize st e cfg k0 s0 cp = Ret (EPERM, st', cp)
    /\ heap st' = heap st
    /\ my_crypto_global st' = my_crypto_global st.
Proof.
  intros Hload Hav Hk Hsecret.
  destruct (customize_setup_ok st e orig cfg k0 s0 cp Hload Hav)
    as (a & st2 & c2 & Heq & Hin & _ & _ & Hpw).
  rewrite (config_get_present cfg "keyid" _ k0 Hk) in Heq. cbn [snd] in Heq.
  rewrite Heq. unfold customize_policy.
  change (ITEM_MATCHES (mkItem SYS_KEYID) "system") with true. cbn match.
  assert (Hbad : (pw ← match password c2 with
                       | Some p => s ← load_chars st2 p; Ret (Some s)
                       | None => Ret None
                       end;
                  Ret (match pw with
                       | Some s => negb (strcmp s SYS_PW =? 0)
                       | None => true
                       end)) = Ret true).
  { destruct (password c2) as [p |] eqn:Hp; [| reflexivity].
    destruct Hpw as [Hfound Hlive].
    unfold load_chars. rewrite Hlive. unfold stashed. cbn [mbind result_bind].
    destruct Hsecret as [Hnone | (s & Hs & Hnf & Hne)].
    - rewrite (config_get_absent cfg "secretkey" s0 Hnone) in Hfound.
      discriminate.
    - rewrite (config_get_present cfg "secretkey" s s0 Hs). cbn [snd str len].
      unfold len, strlen. cbn [str].
      rewrite Nat2Z.id, strncpy_nul_free by exact Hnf.
      destruct (strcmp (s ++ String NUL "") SYS_PW =? 0) eqn:E; [| reflexivity].
      apply Z.eqb_eq in E. apply strcmp_terminated in E; [contradiction | exact Hnf |].
      reflexivity. }
  destruct (match password c2 with
            | Some p => s ← load_chars st2 p; Ret (Some s)
            | None => Ret None
            end) as [pw | |]; cbn [mbind result_bind] in Hbad |- *; try discriminate.
  injection Hbad as ->.
  apply (customize_err_unwinds st st2 a c2 cp Hin).
Qed.


(** ** The key policy *)



(* What a successful rotate_customize leaves: a new instance with the
   count of the template plus one and one of the three rotations; the
   template as it was. *)
Lemma customize_success (st st' : state) (e : eptr) (orig : MY_CRYPTO)
    (cfg : WT_CONFIG_ARG) (k0 s0 : WT_CONFIG_ITEM) (cp cp' : option eptr) :
  load_crypto st e = Ret orig ->
  rotate_customize st e cfg k0 s0 cp = Ret (0, st', cp') ->
  exists a c,
    cp' = Some (Heap a)
    /\ heap st !! a = None
    /\ load_crypto st' (Heap a) = Ret c
    /\ num_calls c = u32 (num_calls orig + 1)
    /\ (rot_N c = 13 \/ rot_N c = 4 \/ rot_N c = 19)
    /\ load_crypto st' e = Ret orig.
Proof.
  intros Hload Hrun.
  destruct (customize_setup st e orig cfg k0 s0 cp Hload)
    as [(st1 & Hfail & _) | (a & st2 & c2 & Heq & Hin & _ & Hnum & _)].
  { rewrite Hfail in Hrun. discriminate. }
  rewrite Heq in Hrun.
  destruct (customize_policy_success _ _ _ _ _ _ _ Hrun) as (n & Hn & -> & ->).
  destruct Hin as (Ha & Ha2 & Hglob & _ & Hkey & Hpass & Hframe).
  exists a. eexists. split; [reflexivity |]. split; [exact Ha |].
  cbn [load_crypto store_crypto heap my_crypto_global].
  rewrite lookup_insert_eq. split; [reflexivity |].
  cbn [num_calls count_call rot_N]. split; [rewrite Hnum; reflexivity |].
  split; [exact Hn |].
  destruct e as [| b]; cbn [load_crypto store_crypto heap my_crypto_global] in *.
  - rewrite Hglob. exact Hload.
  - destruct (heap st !! b) as [blk |] eqn:Hb; [| discriminate].
    assert (b <> a) by (intros ->; congruence).
    rewrite lookup_insert_ne by congruence.
    rewrite Hframe; [rewrite Hb; exact Hload | assumption | |].
    + intros E. destruct (Hkey b E) as (_ & H0 & _). congruence.
    + intros E. destruct (Hpass b E) as (_ & H0 & _). congruence.
Qed.

(** ** Every path of rotate_customize *)

Lemma found_wanted (cfg : WT_CONFIG_ARG) (key : string) (v : WT_CONFIG_ITEM) :
  found (config_get cfg key v).1 (config_get cfg key v).2 = wanted cfg key.
Proof.
  unfold config_get, wanted. destruct (cfg !! key) as [s |]; reflexivity.
Qed.

(* The blocks that were live when rotate_customize was entered are live,
   and hold the same, in the middle of the call. *)
Lemma in_progress_extends (st st2 : state) (a : addr) (c : MY_CRYPTO) :
  in_progress st st2 a c ->
  forall b blk, heap st !! b = Some blk -> heap st2 !! b = Some blk.
Proof.
  intros (Ha & _ & _ & _ & Hkey & Hpass & Hframe) b blk Hb.
  rewrite Hframe; [exact Hb | | |].
  - intros ->. congruence.
  - intros E. destruct (Hkey b E) as (_ & H0 & _). congruence.
  - intros E. destruct (Hpass b E) as (_ & H0 & _). congruence.
Qed.

(* How rotate_customize gets to the choice of the rotation, with the
   allocations counted: it runs out of memory on the way, and then the
   instance stays allocated unless it was the first allocation that
   failed, or it reaches the choice with the new instance in progress. *)
Lemma customize_paths (st : state) (e : eptr) (orig : MY_CRYPTO)
    (cfg : WT_CONFIG_ARG) (k0 s0 : WT_CONFIG_ITEM) (cp : option eptr) :
  load_crypto st e = Ret orig ->
  ((avail st < allocations_needed cfg)%nat
   /\ exists st',
        rotate_customize st e cfg k0 s0 cp = Ret (ENOMEM, st', cp)
        /\ my_crypto_global st' = my_crypto_global st
        /\ released st' = released st
        /\ (forall b blk, heap st !! b = Some blk -> heap st' !! b = Some blk)
        /\ (avail st = 0%nat -> st' = st)
        /\ ((0 < avail st)%nat ->
            exists a c, heap st !! a = None /\ heap st' !! a = Some (BCrypto c)))
  \/ ((allocations_needed cfg <= avail st)%nat
      /\ exists a st2 c2,
           rotate_customize st e cfg k0 s0 cp
           = customize_policy st2 a c2 (config_get cfg "keyid" k0).2 cp
           /\ in_progress st st2 a c2
           /\ rot_N c2 = rot_N orig /\ num_calls c2 = num_calls orig
           /\ match password c2 with
              | Some p =>
                  wanted cfg "secretkey" = true
                  /\ heap st2 !! p = Some (stashed (config_get cfg "secretkey" s0).2)
              | None => wanted cfg "secretkey" = false
              end).
Proof.
  intros Hload. unfold rotate_customize, allocations_needed.
  rewrite Hload. cbn [mbind result_bind].
  rewrite <- (found_wanted cfg "keyid" k0), <- (found_wanted cfg "secretkey" s0).
  pose proof (malloc_spec st (BCrypto (mkCrypto 0 0 None None))) as Hm.
  destruct (malloc st (BCrypto (mkCrypto 0 0 None None))) as [[a |] st1].
  2:{ destruct Hm as [Hav ->]. left. split; [lia |]. eexists.
      split; [reflexivity |]. split; [reflexivity |]. split; [reflexivity |].
      split; [auto |]. split; [reflexivity | lia]. }
  destruct Hm as (Ha & Hheap & Hglob & Hrel & Hav).
  set (c0 := mkCrypto (rot_N orig) (num_calls orig) None None).
  assert (Hin0 : in_progress st (store_crypto st1 (Heap a) c0) a c0).
  { pose proof (in_progress_start st a (BCrypto (mkCrypto 0 0 None None)) c0 Ha
                  eq_refl eq_refl) as H.
    unfold store_crypto. rewrite Hheap, Hglob, Hrel.
    replace (avail st1) with (avail st - 1)%nat by lia. exact H. }
  assert (Hleft : forall st2 c2, in_progress st st2 a c2 ->
            my_crypto_global st2 = my_crypto_global st
            /\ released st2 = released st
            /\ (forall b blk, heap st !! b = Some blk -> heap st2 !! b = Some blk)
            /\ (avail st = 0%nat -> st2 = st)
            /\ ((0 < avail st)%nat ->
                exists a c, heap st !! a = None /\ heap st2 !! a = Some (BCrypto c))).
  { intros st2 c2 Hin. pose proof (in_progress_extends _ _ _ _ Hin) as Hext.
    destruct Hin as (_ & Ha2 & Hg & Hr & _).
    split; [exact Hg |]. split; [exact Hr |]. split; [exact Hext |].
    split; [lia |]. intros _. exists a, c2. split; assumption. }
  destruct (config_get cfg "keyid" k0) as [ret kitem] eqn:Hck. cbn [fst snd].
  pose proof (stash_item_spec (store_crypto st1 (Heap a) c0) a c0 set_keyid ret kitem) as H1.
  destruct (stash_item (store_crypto st1 (Heap a) c0) (Heap a) c0 set_keyid ret kitem)
    as [[st2 c1] |] eqn:Hs1.
  2:{ destruct H1 as [Hav1 Hf1]. cbn [store_crypto avail] in Hav1.
      left. rewrite Hf1. split; [lia |]. eexists. split; [reflexivity |].
      apply (Hleft _ _ Hin0). }
  destruct (in_progress_keyid _ _ _ _ _ _ _ _ Hin0 eq_refl eq_refl Hs1)
    as (Hin1 & Hp1 & Hr1 & Hn1 & _).
  assert (Hav1 : avail st1 = ((if found ret kitem then 1 else 0) + avail st2)%nat).
  { destruct H1 as [(-> & -> & _) | (p & -> & _ & _ & _ & _ & _ & H)];
      cbn [store_crypto avail] in *; lia. }
  destruct (config_get cfg "secretkey" s0) as [ret2 sitem] eqn:Hcs. cbn [fst snd].
  pose proof (stash_item_spec st2 a c1 set_password ret2 sitem) as H2.
  destruct (stash_item st2 (Heap a) c1 set_password ret2 sitem) as [[st3 c2] |] eqn:Hs2.
  2:{ destruct H2 as [Hav2 Hf2].
      left. rewrite Hf2. split; [lia |]. eexists. split; [reflexivity |].
      apply (Hleft _ _ Hin1). }
  destruct (in_progress_password _ _ _ _ _ _ _ _ Hin1 Hp1 Hs2)
    as (Hin2 & Hk2 & Hr2 & Hn2 & _ & Hpw).
  assert (Hav2 : avail st2 = ((if found ret2 sitem then 1 else 0) + avail st3)%nat).
  { destruct H2 as [(-> & -> & _) | (p & -> & _ & _ & _ & _ & _ & H)];
      cbn [store_crypto avail] in *; lia. }
  right. split; [lia |]. exists a, st3, c2.
  split; [reflexivity |]. split; [exact Hin2 |].
  split; [rewrite Hr2, Hr1; reflexivity |].
  split; [rewrite Hn2, Hn1; reflexivity |].
  exact Hpw.
Qed.

(* What the choice of the rotation returns, and what it leaves. *)
Lemma customize_policy_frame (st st2 : state) (a : addr) (c : MY_CRYPTO)
    (item : WT_CONFIG_ITEM) (cp cp' : option eptr) (r : Z) (st' : state) :
  in_progress st st2 a c ->
  customize_policy st2 a c item cp = Ret (r, st', cp') ->
  my_crypto_global st' = my_crypto_global st
  /\ (forall b blk, heap st !! b = Some blk -> heap st' !! b = Some blk)
  /\ ((r = 0 /\ cp' = Some (Heap a) /\ released st' = released st
       /\ exists c', st' = store_crypto st2 (Heap a) c'
                     /\ keyid c' = keyid c /\ password c' = password c)
      \/ (r = EPERM /\ cp' = cp /\ heap st' = heap st)
      \/ (r = EINVAL /\ cp' = cp /\ released st' = released st)).
Proof.
  intros Hin Hrun.
  pose proof (in_progress_extends _ _ _ _ Hin) as Hext.
  assert (Hfinish : forall n,
            Ret (0, store_crypto st2 (Heap a)
                      (count_call (mkCrypto n (num_calls c) (keyid c) (password c))),
                 Some (Heap a)) = Ret (r, st', cp') ->
            my_crypto_global st' = my_crypto_global st
            /\ (forall b blk, heap st !! b = Some blk -> heap st' !! b = Some blk)
            /\ ((r = 0 /\ cp' = Some (Heap a) /\ released st' = released st
                 /\ exists c', st' = store_crypto st2 (Heap a) c'
                               /\ keyid c' = keyid c /\ password c' = password c)
                \/ (r = EPERM /\ cp' = cp /\ heap st' = heap st)
                \/ (r = EINVAL /\ cp' = cp /\ released st' = released st))).
  { intros n [= <- <- <-].
    destruct Hin as (Ha & _ & Hg & Hr & _).
    cbn [store_crypto my_crypto_global heap released].
    split; [exact Hg |]. split.
    - intros b blk Hb. rewrite lookup_insert_ne by (intros ->; congruence).
      apply Hext. exact Hb.
    - left. split; [reflexivity |]. split; [reflexivity |]. split; [exact Hr |].
      eexists. split; [reflexivity |]. split; reflexivity. }
  assert (Herr : (s1 ← free_if_set st2 (keyid c);
                  s2 ← free_if_set s1 (password c);
                  s3 ← free s2 a;
                  Ret (EPERM, s3, cp)) = Ret (r, st', cp') ->
            my_crypto_global st' = my_crypto_global st
            /\ (forall b blk, heap st !! b = Some blk -> heap st' !! b = Some blk)
            /\ ((r = 0 /\ cp' = Some (Heap a) /\ released st' = released st
                 /\ exists c', st' = store_crypto st2 (Heap a) c'
                               /\ keyid c' = keyid c /\ password c' = password c)
                \/ (r = EPERM /\ cp' = cp /\ heap st' = heap st)
                \/ (r = EINVAL /\ cp' = cp /\ released st' = released st))).
  { destruct (customize_err_unwinds st st2 a c cp Hin) as (s & -> & Hheap & Hglob).
    intros [= <- <- <-]. split; [exact Hglob |]. split.
    - intros b blk Hb. rewrite Hheap. exact Hb.
    - right. left. repeat split. exact Hheap. }
  unfold customize_policy in Hrun.
  destruct (ITEM_MATCHES item "system").
  - destruct (match password c with
              | Some p => s ← load_chars st2 p; Ret (Some s)
              | None => Ret None
              end) as [pw | |]; cbn [mbind result_bind] in Hrun; try discriminate.
    destruct (match pw with
              | Some s => negb (strcmp s SYS_PW =? 0)
              | None => true
              end); [apply Herr | apply (Hfinish 13)]; exact Hrun.
  - destruct (ITEM_MATCHES item USER1_KEYID); [apply (Hfinish 4); exact Hrun |].
    destruct (ITEM_MATCHES item USER2_KEYID); [apply (Hfinish 19); exact Hrun |].
    injection Hrun as <- <- <-.
    destruct Hin as (_ & _ & Hg & Hr & _).
    split; [exact Hg |]. split; [exact Hext |].
    right. right. repeat split. exact Hr.
Qed.

(* The instance that serves rotate_customize holds the same when the call
   returns, whatever the call returns. *)
Lemma customize_keeps_serving_instance (st st' : state) (e : eptr) (orig : MY_CRYPTO)
    (cfg : WT_CONFIG_ARG) (k0 s0 : WT_CONFIG_ITEM) (cp cp' : option eptr) (r : Z) :
  load_crypto st e = Ret orig ->
  rotate_customize st e cfg k0 s0 cp = Ret (r, st', cp') ->
  load_crypto st' e = Ret orig.
Proof.
  intros Hload Hrun.
  assert (Hsame : my_crypto_global st' = my_crypto_global st ->
            (forall b blk, heap st !! b = Some blk -> heap st' !! b = Some blk) ->
            load_crypto st' e = Ret orig).
  { intros Hg Hext. destruct e as [| b]; cbn [load_crypto] in *.
    - rewrite Hg. exact Hload.
    - destruct (heap st !! b) as [blk |] eqn:Hb; [| discriminate].
      rewrite (Hext b blk Hb). exact Hload. }
  destruct (customize_paths st e orig cfg k0 s0 cp Hload)
    as [(_ & st1 & Hfail & Hg & _ & Hext & _) | (_ & a & st2 & c2 & Heq & Hin & _)].
  - rewrite Hfail in Hrun. injection Hrun as <- <- <-. auto.
  - rewrite Heq in Hrun.
    destruct (customize_policy_frame _ _ _ _ _ _ _ _ _ Hin Hrun) as (Hg & Hext & _).
    auto.
Qed.

(** ** The count of calls *)

Lemma rotate_encrypt_counts (fuel : nat) (f f' : frame) (src : option (list byte))
    (src_len dst_len ret : Z) :
  rotate_encrypt fuel f src src_len dst_len = Ret (ret, f') ->
  inst f' = count_call (inst f).
Proof.
  unfold rotate_encrypt. destruct src as [s |]; [| intros [= _ <-]; reflexivity].
  destruct (dst_len <? _); [intros [= _ <-]; reflexivity |].
  destruct (memcpy _ _ _ _ _) as [d1 | |]; cbn [mbind result_bind]; try discriminate.
  destruct (do_rotate _ _ _ _ _) as [d2 | |]; cbn [mbind result_bind]; try discriminate.
  destruct (make_cksum _ _ _) as [[d3 r1] | |]; cbn [mbind result_bind]; try discriminate.
  destruct (make_iv _ _ _) as [[d4 r2] | |]; cbn [mbind result_bind]; try discriminate.
  intros [= _ <-]. reflexivity.
Qed.

Lemma rotate_decrypt_counts (fuel : nat) (f f' : frame) (src : option (list byte))
    (src_len dst_len ret : Z) :
  rotate_decrypt fuel f src src_len dst_len = Ret (ret, f') ->
  inst f' = count_call (inst f).
Proof.
  unfold rotate_decrypt. destruct src as [s |]; [| intros [= _ <-]; reflexivity].
  destruct (dst_len <? _); [intros [= _ <-]; reflexivity |].
  destruct (memcpy _ _ _ _ _) as [d1 | |]; cbn [mbind result_bind]; try discriminate.
  destruct (do_rotate _ _ _ _ _) as [d2 | |]; cbn [mbind result_bind]; try discriminate.
  intros [= _ <-]. reflexivity.
Qed.

(* Calls that are ready return. *)
Lemma rotate_encrypt_returns (fuel : nat) (f : frame) (src : option (list byte))
    (src_len dst_len : Z) :
  encrypt_ready fuel f src src_len dst_len ->
  exists ret f', rotate_encrypt fuel f src src_len dst_len = Ret (ret, f').
Proof.
  destruct src as [s |]; cbn [encrypt_ready]; [| intros _; eexists _, _; reflexivity].
  intros [Hsmall | (Hlen & Hs & Hd & Hfuel)].
  - unfold rotate_encrypt. rewrite sz_add_header.
    replace (dst_len <? (src_len + 20) mod SIZE_MOD) with true
      by (symmetry; apply Z.ltb_lt; exact Hsmall).
    eexists _, _. reflexivity.
  - destruct (Z.ltb_spec dst_len ((src_len + 20) mod SIZE_MOD)) as [Hlt | Hge].
    + unfold rotate_encrypt. rewrite sz_add_header.
      replace (dst_len <? (src_len + 20) mod SIZE_MOD) with true
        by (symmetry; apply Z.ltb_lt; exact Hlt).
      eexists _, _. reflexivity.
    + rewrite Z.mod_small in Hge by (unfold UINT32_MOD, SIZE_MOD in *; lia).
      destruct (split_buffer s 0 (Z.to_nat src_len)) as (e & x & xs & Hsx & He & Hx);
        [lia |].
      apply nil_length_inv in He. subst e. cbn [app] in Hsx.
      destruct (split_buffer (dst f) 4 (16 + Z.to_nat src_len))
        as (h4 & rest & post & Hf & H4 & Hrest); [lia |].
      destruct (split_buffer rest 16 (Z.to_nat src_len))
        as (h16 & body & tl & Hr & H16 & Hbody); [lia |].
      assert (tl = []) as ->.
      { apply nil_length_inv. rewrite Hr, !length_app in Hrest. lia. }
      rewrite app_nil_r in Hr. subst rest.
      replace src_len with (Z.of_nat (length x)) by lia. rewrite Hsx.
      rewrite (rotate_encrypt_spec fuel f x xs h4 h16 body post dst_len);
        [eexists _, _; reflexivity | | | | | | |]; try lia.
      rewrite Hf, <- !app_assoc. reflexivity.
Qed.

Lemma rotate_decrypt_returns (fuel : nat) (f : frame) (src : option (list byte))
    (src_len dst_len : Z) :
  decrypt_ready fuel f src src_len dst_len ->
  exists ret f', rotate_decrypt fuel f src src_len dst_len = Ret (ret, f').
Proof.
  destruct src as [s |]; cbn [decrypt_ready]; [| intros _; eexists _, _; reflexivity].
  intros [Hsmall | (Hlen & Hs & Hd & Hfuel)].
  - unfold rotate_decrypt. rewrite sz_sub_header.
    replace (dst_len <? (src_len - 20) mod SIZE_MOD) with true
      by (symmetry; apply Z.ltb_lt; exact Hsmall).
    eexists _, _. reflexivity.
  - destruct (Z.ltb_spec dst_len ((src_len - 20) mod SIZE_MOD)) as [Hlt | Hge].
    + unfold rotate_decrypt. rewrite sz_sub_header.
      replace (dst_len <? (src_len - 20) mod SIZE_MOD) with true
        by (symmetry; apply Z.ltb_lt; exact Hlt).
      eexists _, _. reflexivity.
    + destruct (split_buffer s 20 (Z.to_nat dst_len)) as (hdr & body & xs & Hsx & Hh & Hb);
        [lia |].
      destruct (split_buffer (dst f) 0 (Z.to_nat dst_len)) as (e & d & post & Hf & He & Hdl);
        [lia |].
      apply nil_length_inv in He. subst e. cbn [app] in Hf.
      replace dst_len with (Z.of_nat (length body)) by lia. rewrite Hsx.
      rewrite (rotate_decrypt_spec fuel f hdr body xs d post src_len);
        [eexists _, _; reflexivity | | | | | |]; try lia.
      exact Hf.
Qed.

(** C8, as amended.  Every call of rotate_encrypt or rotate_decrypt on
    buffers that hold what their lengths announce (or with a NULL source,
    or with too small a capacity) returns, and so does every call of
    rotate_sizing; each leaves the count of the instance at its old value
    plus one modulo 2^32: one more as long as the count is below 2^32 - 1,
    and 0 after 2^32 - 1.  A rotate_customize that returns, whatever it
    returns, leaves the instance that served it, the template, as it was,
    its count included; one that returns 0 hands back a new instance whose
    count is the count of the template plus one modulo 2^32. *)
Theorem num_calls_counts_each_call (fuel : nat) (f : frame)
    (src : option (list byte)) (src_len dst_len : Z) (c : MY_CRYPTO)
    (st st' : state) (e : eptr) (orig : MY_CRYPTO) (cfg : WT_CONFIG_ARG)
    (k0 s0 : WT_CONFIG_ITEM) (cp cp' : option eptr) :
  (encrypt_ready fuel f src src_len dst_len ->
   exists ret f',
     rotate_encrypt fuel f src src_len dst_len = Ret (ret, f')
     /\ num_calls (inst f') = u32 (num_calls (inst f) + 1))
  /\ (decrypt_ready fuel f src src_len dst_len ->
      exists ret f',
        rotate_decrypt fuel f src src_len dst_len = Ret (ret, f')
        /\ num_calls (inst f') = u32 (num_calls (inst f) + 1))
  /\ num_calls (rotate_sizing c).1.2 = u32 (num_calls c + 1)
  /\ (load_crypto st e = Ret orig ->
      rotate_customize st e cfg k0 s0 cp = Ret (0, st', cp') ->
      exists a c',
        cp' = Some (Heap a) /\ heap st !! a = None
        /\ load_crypto st' (Heap a) = Ret c'
        /\ num_calls c' = u32 (num_calls orig + 1)
        /\ load_crypto st' e = Ret orig)
  /\ (load_crypto st e = Ret orig ->
      forall r st1 cp1,
        rotate_customize st e cfg k0 s0 cp = Ret (r, st1, cp1) ->
        load_crypto st1 e = Ret orig)
  /\ (0 <= num_calls c < UINT32_MOD - 1 ->
      u32 (num_calls c + 1) = num_calls c + 1)
  /\ (num_calls c = UINT32_MOD - 1 -> u32 (num_calls c + 1) = 0).
Proof.
  split; [| split; [| split; [| split; [| split; [| split]]]]].
  - intros Hready.
    destruct (rotate_encrypt_returns _ _ _ _ _ Hready) as (ret & f' & Hrun).
    exists ret, f'. split; [exact Hrun |].
    rewrite (rotate_encrypt_counts _ _ _ _ _ _ _ Hrun). reflexivity.
  - intros Hready.
    destruct (rotate_decrypt_returns _ _ _ _ _ Hready) as (ret & f' & Hrun).
    exists ret, f'. split; [exact Hrun |].
    rewrite (rotate_decrypt_counts _ _ _ _ _ _ _ Hrun). reflexivity.
  - reflexivity.
  - intros Hload Hrun.
    destruct (customize_success _ _ _ _ _ _ _ _ _ Hload Hrun)
      as (a & c' & Hcp & Ha & Hnew & Hnum & _ & Hold).
    exists a, c'. repeat split; assumption.
  - intros Hload r st1 cp1 Hrun.
    exact (customize_keeps_serving_instance _ _ _ _ _ _ _ _ _ _ Hload Hrun).
  - intros H. apply u32_small. lia.
  - intros ->. reflexivity.
Qed.

(** C8, as amended, on the encryption of Hello, on the decryption of a
    record of 25 bytes, on rotate_customize for keyid user1, which returns
    0, and on rotate_customize for keyid userbad, which returns EINVAL. *)
Lemma num_calls_counts_each_call_witness :
  (exists ret f',
     rotate_encrypt 6 hello_frame (Some hello) 5 25 = Ret (ret, f')
     /\ num_calls (inst f') = u32 (num_calls (inst hello_frame) + 1))
  /\ (exists ret f',
        rotate_decrypt 6 (frame_of 5) (Some (replicate 25 x61)) 25 5 = Ret (ret, f')
        /\ num_calls (inst f') = u32 (num_calls (inst (frame_of 5)) + 1))
  /\ (exists a c',
        Some (Heap 0%nat) = Some (Heap a) /\ heap (startup 3) !! a = None
        /\ load_crypto user1_instance_state (Heap a) = Ret c'
        /\ num_calls c' = u32 (num_calls (mkCrypto 0 0 None None) + 1)
        /\ load_crypto user1_instance_state Global = Ret (mkCrypto 0 0 None None))
  /\ rotate_customize (startup 3) Global userbad_config no_item no_item None
     = Ret (EINVAL, userbad_state, None)
  /\ load_crypto userbad_state Global = Ret (mkCrypto 0 0 None None)
  /\ u32 (num_calls (inst hello_frame) + 1) = num_calls (inst hello_frame) + 1.
Proof.
  destruct (num_calls_counts_each_call 6 hello_frame (Some hello) 5 25
              (inst hello_frame) (startup 3) user1_instance_state Global
              (mkCrypto 0 0 None None) user1_config no_item no_item
              None (Some (Heap 0%nat)))
    as (Henc & _ & _ & Hcust & _ & Hinc & _).
  destruct (num_calls_counts_each_call 6 (frame_of 5) (Some (replicate 25 x61)) 25 5
              (inst hello_frame) (startup 3) user1_instance_state Global
              (mkCrypto 0 0 None None) userbad_config no_item no_item
              None (Some (Heap 0%nat)))
    as (_ & Hdec & _ & _ & Hany & _).
  split.
  { apply Henc. right. vm_compute. repeat split; try discriminate; lia. }
  split.
  { apply Hdec. right. vm_compute. repeat split; try discriminate; lia. }
  split; [apply Hcust; [reflexivity | vm_compute; reflexivity] |].
  assert (Hbad : rotate_customize (startup 3) Global userbad_config no_item no_item None
                 = Ret (EINVAL, userbad_state, None))
    by (vm_compute; reflexivity).
  split; [exact Hbad |].
  split; [exact (Hany eq_refl EINVAL userbad_state None Hbad) |].
  apply Hinc. split; [discriminate | reflexivity].
Defined.

(** C8 as stated fails at a count of 2^32 - 1: rotate_sizing leaves the
    count at 0, which is a decrease.  And the instance that serves a
    rotate_customize, the template, keeps its count: the call is counted
    on the new instance only. *)
Lemma num_calls_wraps_to_zero :
  num_calls (rotate_sizing full_counter).1.2 = 0
  /\ num_calls full_counter = 4294967295
  /\ ~ (num_calls full_counter <= num_calls (rotate_sizing full_counter).1.2)
  /\ rotate_customize (startup 3) Global user1_config no_item no_item None
     = Ret (0, user1_instance_state, Some (Heap 0%nat))
  /\ num_calls (my_crypto_global user1_instance_state)
     = num_calls (my_crypto_global (startup 3)).
Proof.
  split; [reflexivity |]. split; [reflexivity |].
  split; [vm_compute; intros H; apply H; reflexivity |].
  split; [vm_compute; reflexivity | reflexivity].
Qed.

(** ** Two inputs on which rotate_customize fails its contract *)

(** C3 at an input where it fails: the configuration has no keyid, so
    config_get fails and the item rotate_customize tests is the one its
    automatic variable happens to hold.  With the text user1 there the
    call returns 0 and hands back an instance of rotation 4; with an empty
    item it returns EINVAL. *)
Lemma customize_without_keyid_reads_unset_item :
  config_get no_keyid_config "keyid" (mkItem USER1_KEYID) = (WT_NOTFOUND, mkItem USER1_KEYID)
  /\ (exists st',
        rotate_customize (startup 3) Global no_keyid_config (mkItem USER1_KEYID) no_item None
        = Ret (0, st', Some (Heap 0%nat))
        /\ heap st' !! 0%nat = Some (BCrypto (mkCrypto 4 1 None None)))
  /\ (exists st',
        rotate_customize (startup 3) Global no_keyid_config no_item no_item None
        = Ret (EINVAL, st', None)).
Proof.
  split; [reflexivity |]. split.
  - eexists. split; vm_compute; reflexivity.
  - eexists. vm_compute. reflexivity.
Qed.

(** C4 at an input where it fails: for keyid userbad, on an empty heap,
    rotate_customize returns EINVAL with the instance and the copy of the
    keyid still allocated and no call of free made. *)
Lemma customize_unknown_keyid_leaks :
  heap (startup 3) = ∅
  /\ exists st',
       rotate_customize (startup 3) Global userbad_config no_item no_item None
       = Ret (EINVAL, st', None)
       /\ heap st' !! 0%nat = Some (BCrypto (mkCrypto 0 0 (Some 1%nat) None))
       /\ heap st' !! 1%nat = Some (stashed (mkItem USERBAD_KEYID))
       /\ released st' = [].
Proof.
  split; [reflexivity |]. eexists. repeat split; vm_compute; reflexivity.
Qed.

(** ** rotate_terminate *)

Ltac heap_lookup :=
  cbn [heap my_crypto_global released avail store_crypto];
  repeat first
    [ rewrite lookup_insert_ne by congruence
    | rewrite lookup_delete_ne by congruence
    | rewrite lookup_insert_eq
    | rewrite lookup_delete_eq ].

(** C9.  For every instance whose strings are live blocks of their own,
    rotate_terminate returns 0, has counted the call, has released the
    keyid and the password, and has released the structure itself exactly
    when the instance is not the global one: the global instance stays,
    with its count incremented and both pointers NULL; an instance of the
    heap is gone, and the last block released is the structure, holding
    the incremented count.  No other block changes. *)
Theorem rotate_terminate_releases (st : state) (e : eptr) (c : MY_CRYPTO) :
  load_crypto st e = Ret c ->
  (forall p, password c = Some p ->
     e <> Heap p /\ keyid c <> Some p /\ is_Some (heap st !! p)) ->
  (forall k, keyid c = Some k -> e <> Heap k /\ is_Some (heap st !! k)) ->
  let c' := mkCrypto (rot_N c) (u32 (num_calls c + 1)) None None in
  exists st',
    rotate_terminate st e = Ret (0, st')
    /\ (forall p, password c = Some p -> heap st' !! p = None)
    /\ (forall k, keyid c = Some k -> heap st' !! k = None)
    /\ released st'
       = match e with Global => [] | Heap a => [(a, BCrypto c')] end
         ++ release_entry st (keyid c) ++ release_entry st (password c)
         ++ released st
    /\ match e with
       | Global => my_crypto_global st' = c'
       | Heap a => heap st' !! a = None /\ my_crypto_global st' = my_crypto_global st
       end
    /\ (forall b, e <> Heap b -> keyid c <> Some b -> password c <> Some b ->
          heap st' !! b = heap st !! b).
Proof.
  intros Hload Hpass Hkey c'. unfold rotate_terminate. rewrite Hload.
  cbn [mbind result_bind]. unfold release_entry.
  destruct c as [rot n kid pw]. cbn [password keyid rot_N num_calls count_call] in *.
  subst c'.
  destruct pw as [p |], kid as [k |].
  - destruct (Hpass p eq_refl) as (Hep & Hkp & [bp Hp]).
    destruct (Hkey k eq_refl) as (Hek & [bk Hk]).
    assert (k <> p) by congruence.
    destruct e as [| a].
    + rewrite (free_live _ p bp) by (heap_lookup; exact Hp).
      cbn [mbind result_bind keyid password count_call rot_N num_calls].
      rewrite (free_live _ k bk) by (heap_lookup; exact Hk).
      cbn [mbind result_bind keyid password count_call rot_N num_calls]. rewrite Hp, Hk.
      eexists. split; [reflexivity |]. heap_lookup.
      split; [intros ? [= <-]; heap_lookup; reflexivity |].
      split; [intros ? [= <-]; heap_lookup; reflexivity |].
      split; [reflexivity |]. split; [reflexivity |].
      intros b _ Hbk Hbp. heap_lookup. reflexivity.
    + assert (a <> p) by congruence. assert (a <> k) by congruence.
      rewrite (free_live _ p bp) by (heap_lookup; exact Hp).
      cbn [mbind result_bind keyid password count_call rot_N num_calls].
      rewrite (free_live _ k bk) by (heap_lookup; exact Hk).
      cbn [mbind result_bind keyid password count_call rot_N num_calls].
      rewrite (free_live _ a (BCrypto (mkCrypto rot (u32 (n + 1)) None None)))
        by (heap_lookup; reflexivity).
      cbn [mbind result_bind]. rewrite Hp, Hk.
      eexists. split; [reflexivity |]. heap_lookup.
      split; [intros ? [= <-]; heap_lookup; reflexivity |].
      split; [intros ? [= <-]; heap_lookup; reflexivity |].
      split; [reflexivity |]. split; [split; reflexivity |].
      intros b Hba Hbk Hbp. heap_lookup. reflexivity.
  - destruct (Hpass p eq_refl) as (Hep & _ & [bp Hp]).
    destruct e as [| a].
    + rewrite (free_live _ p bp) by (heap_lookup; exact Hp).
      cbn [mbind result_bind keyid password count_call rot_N num_calls]. rewrite Hp.
      eexists. split; [reflexivity |]. heap_lookup.
      split; [intros ? [= <-]; heap_lookup; reflexivity |].
      split; [intros ? [=] |].
      split; [reflexivity |]. split; [reflexivity |].
      intros b _ Hbk Hbp. heap_lookup. reflexivity.
    + assert (a <> p) by congruence.
      rewrite (free_live _ p bp) by (heap_lookup; exact Hp).
      cbn [mbind result_bind keyid password count_call rot_N num_calls].
      rewrite (free_live _ a (BCrypto (mkCrypto rot (u32 (n + 1)) None None)))
        by (heap_lookup; reflexivity).
      cbn [mbind result_bind]. rewrite Hp.
      eexists. split; [reflexivity |]. heap_lookup.
      split; [intros ? [= <-]; heap_lookup; reflexivity |].
      split; [intros ? [=] |].
      split; [reflexivity |]. split; [split; reflexivity |].
      intros b Hba Hbk Hbp. heap_lookup. reflexivity.
  - destruct (Hkey k eq_refl) as (Hek & [bk Hk]).
    destruct e as [| a].
    + cbn [mbind result_bind keyid password count_call rot_N num_calls].
      rewrite (free_live _ k bk) by (heap_lookup; exact Hk).
      cbn [mbind result_bind keyid password count_call rot_N num_calls]. rewrite Hk.
      eexists. split; [reflexivity |]. heap_lookup.
      split; [intros ? [=] |].
      split; [intros ? [= <-]; heap_lookup; reflexivity |].
      split; [reflexivity |]. split; [reflexivity |].
      intros b _ Hbk Hbp. heap_lookup. reflexivity.
    + assert (a <> k) by congruence.
      cbn [mbind result_bind keyid password count_call rot_N num_calls].
      rewrite (free_live _ k bk) by (heap_lookup; exact Hk).
      cbn [mbind result_bind keyid password count_call rot_N num_calls].
      rewrite (free_live _ a (BCrypto (mkCrypto rot (u32 (n + 1)) None None)))
        by (heap_lookup; reflexivity).
      cbn [mbind result_bind]. rewrite Hk.
      eexists. split; [reflexivity |]. heap_lookup.
      split; [intros ? [=] |].
      split; [intros ? [= <-]; heap_lookup; reflexivity |].
      split; [reflexivity |]. split; [split; reflexivity |].
      intros b Hba Hbk Hbp. heap_lookup. reflexivity.
  - destruct e as [| a].
    + cbn [mbind result_bind keyid password count_call rot_N num_calls].
      eexists. split; [reflexivity |]. heap_lookup.
      split; [intros ? [=] |]. split; [intros ? [=] |].
      split; [reflexivity |]. split; [reflexivity |].
      intros b _ _ _. reflexivity.
    + cbn [mbind result_bind keyid password count_call rot_N num_calls].
      rewrite (free_live _ a (BCrypto (mkCrypto rot (u32 (n + 1)) None None)))
        by (heap_lookup; reflexivity).
      cbn [mbind result_bind].
      eexists. split; [reflexivity |]. heap_lookup.
      split; [intros ? [=] |]. split; [intros ? [=] |].
      split; [reflexivity |]. split; [split; reflexivity |].
      intros b Hba _ _. heap_lookup. reflexivity.
Qed.

(* The instance a successful rotate_customize hands back is a block of the
   heap, never the template, and rotate_terminate may be called on it: its
   strings are live blocks of their own. *)
Lemma customize_makes_terminable (st st' : state) (e : eptr) (orig : MY_CRYPTO)
    (cfg : WT_CONFIG_ARG) (k0 s0 : WT_CONFIG_ITEM) (cp cp' : option eptr) :
  load_crypto st e = Ret orig ->
  rotate_customize st e cfg k0 s0 cp = Ret (0, st', cp') ->
  exists a c,
    cp' = Some (Heap a)
    /\ load_crypto st' (Heap a) = Ret c
    /\ (forall p, password c = Some p ->
          Heap a <> Heap p /\ keyid c <> Some p /\ is_Some (heap st' !! p))
    /\ (forall k, keyid c = Some k -> Heap a <> Heap k /\ is_Some (heap st' !! k)).
Proof.
  intros Hload Hrun.
  destruct (customize_setup st e orig cfg k0 s0 cp Hload)
    as [(st1 & Hfail & _) | (a & st2 & c2 & Heq & Hin & _)].
  { rewrite Hfail in Hrun. discriminate. }
  rewrite Heq in Hrun.
  destruct (customize_policy_success _ _ _ _ _ _ _ Hrun) as (n & _ & -> & ->).
  destruct Hin as (_ & _ & _ & _ & Hkey & Hpass & _).
  exists a. eexists. split; [reflexivity |].
  cbn [load_crypto store_crypto heap]. rewrite lookup_insert_eq.
  split; [reflexivity |]. cbn [count_call keyid password].
  split.
  - intros p Hp. destruct (Hpass p Hp) as (Hpa & _ & Hkp & s & Hs).
    split; [congruence |]. split; [exact Hkp |].
    exists (BChars s). rewrite lookup_insert_ne by congruence. exact Hs.
  - intros k Hk. destruct (Hkey k Hk) as (Hka & _ & s & Hs).
    split; [congruence |].
    exists (BChars s). rewrite lookup_insert_ne by congruence. exact Hs.
Qed.

Lemma customize_system_instance :
  rotate_customize (startup 3) Global system_config no_item no_item None
  = Ret (0, system_instance_state, Some (Heap 0%nat)).
Proof. vm_compute. reflexivity. Qed.

(** C9 on the instance rotate_customize makes for keyid system. *)
Lemma rotate_terminate_releases_witness :
  let c' := mkCrypto (rot_N (mkCrypto 13 1 (Some 1%nat) (Some 2%nat)))
              (u32 (num_calls (mkCrypto 13 1 (Some 1%nat) (Some 2%nat)) + 1)) None None in
  exists st',
    rotate_terminate system_instance_state (Heap 0%nat) = Ret (0, st')
    /\ (forall p, password (mkCrypto 13 1 (Some 1%nat) (Some 2%nat)) = Some p ->
          heap st' !! p = None)
    /\ (forall k, keyid (mkCrypto 13 1 (Some 1%nat) (Some 2%nat)) = Some k ->
          heap st' !! k = None)
    /\ released st'
       = match Heap 0%nat with Global => [] | Heap a => [(a, BCrypto c')] end
         ++ release_entry system_instance_state
              (keyid (mkCrypto 13 1 (Some 1%nat) (Some 2%nat)))
         ++ release_entry system_instance_state
              (password (mkCrypto 13 1 (Some 1%nat) (Some 2%nat)))
         ++ released system_instance_state
    /\ match Heap 0%nat with
       | Global => my_crypto_global st' = c'
       | Heap a =>
           heap st' !! a = None
           /\ my_crypto_global st' = my_crypto_global system_instance_state
       end
    /\ (forall b, Heap 0%nat <> Heap b ->
          keyid (mkCrypto 13 1 (Some 1%nat) (Some 2%nat)) <> Some b ->
          password (mkCrypto 13 1 (Some 1%nat) (Some 2%nat)) <> Some b ->
          heap st' !! b = heap system_instance_state !! b).
Proof.
  apply (rotate_terminate_releases system_instance_state (Heap 0%nat)
           (mkCrypto 13 1 (Some 1%nat) (Some 2%nat))).
  - reflexivity.
  - intros p [= <-]. split; [discriminate |]. split; [discriminate |].
    eexists. reflexivity.
  - intros k [= <-]. split; [discriminate |]. eexists. reflexivity.
Defined.

(** ** The header: make_cksum and make_iv *)

(* A loop of [n] writes that starts fewer than [n] bytes before the end of
   the buffer leaves it. *)
Lemma fill_random_overrun (n : nat) :
  forall (buf : list byte) (off i : Z) (r : rng),
    (0 < n)%nat ->
    Z.of_nat (length buf) < off + i + Z.of_nat n ->
    fill_random n buf off i r = UB.
Proof.
  induction n as [| n IH]; intros buf off i r Hn Hlen; [lia |].
  cbn [fill_random].
  destruct ((0 <=? off + i) && (off + i <? Z.of_nat (length buf))) eqn:E;
    [| reflexivity].
  apply andb_true_iff in E as [_ E]. apply Z.ltb_lt in E.
  cbn [random]. apply IH; [lia |].
  rewrite length_insert. lia.
Qed.

Lemma fill_random_at (n off : nat) (buf : list byte) (r : rng) :
  (off + n <= length buf)%nat ->
  fill_random n buf (Z.of_nat off) 0 r
  = Ret (take off buf ++ random_bytes n r ++ drop (off + n) buf, advance n r).
Proof.
  intros H.
  destruct (split_buffer buf off n H) as (pre & todo & post & -> & Hpre & Htodo).
  pose proof (fill_random_spec pre post todo [] r) as Hspec.
  cbn [app length] in Hspec. change (Z.of_nat 0) with 0 in Hspec.
  rewrite Hpre, Htodo in Hspec.
  rewrite Hspec.
  rewrite (take_app_length' pre _ off (eq_sym Hpre)).
  rewrite (app_assoc pre todo post).
  rewrite (drop_app_length' (pre ++ todo) post (off + n))
    by (rewrite length_app; lia).
  reflexivity.
Qed.

(** X1.  make_cksum overwrites exactly the 4 bytes from its argument on,
    and make_iv the 16, with the low bytes of the next values of random,
    in order; the buffer keeps its other bytes and the generator has
    advanced by 4, or by 16.  Neither looks at the size of the buffer:
    when fewer bytes are left in it, the loop writes past its end. *)
Theorem header_fill (buf : list byte) (off : nat) (r : rng) :
  ((off + 4 <= length buf)%nat ->
   make_cksum buf (Z.of_nat off) r
   = Ret (take off buf ++ random_bytes 4 r ++ drop (off + 4) buf, advance 4 r))
  /\ ((off + 16 <= length buf)%nat ->
      make_iv buf (Z.of_nat off) r
      = Ret (take off buf ++ random_bytes 16 r ++ drop (off + 16) buf, advance 16 r))
  /\ ((length buf < off + 4)%nat -> make_cksum buf (Z.of_nat off) r = UB)
  /\ ((length buf < off + 16)%nat -> make_iv buf (Z.of_nat off) r = UB).
Proof.
  unfold make_cksum, make_iv.
  change (Z.to_nat CHKSUM_LEN) with 4%nat. change (Z.to_nat IV_LEN) with 16%nat.
  split; [apply fill_random_at |]. split; [apply fill_random_at |].
  split; intros H; apply fill_random_overrun; lia.
Qed.

(** X1 on a buffer of 6 bytes, from its second byte on: room for the
    checksum, not for the initialization vector. *)
Lemma header_fill_witness :
  make_cksum (replicate 6 x00) (Z.of_nat 1) ones_rng
  = Ret (take 1 (replicate 6 x00) ++ random_bytes 4 ones_rng
         ++ drop (1 + 4) (replicate 6 x00), advance 4 ones_rng)
  /\ make_iv (replicate 6 x00) (Z.of_nat 1) ones_rng = UB.
Proof.
  destruct (header_fill (replicate 6 x00) 1 ones_rng) as (H1 & _ & _ & H4).
  split; [apply H1 | apply H4]; cbn [length replicate]; lia.
Defined.

(** ** Termination of do_rotate *)

(** X2.  On a region that lies inside the buffer, do_rotate returns if and
    only if the length is below 2^32, the range of its index.  When it
    returns it has replaced each byte of the region by its rotation and
    has left the bytes before and after the region as they were. *)
Theorem do_rotate_returns_iff (buf : list byte) (off len rotn : Z) :
  0 <= off -> 0 <= len -> off + len <= Z.of_nat (length buf) ->
  ((exists fuel out, do_rotate fuel buf off len rotn = Ret out) <-> len < UINT32_MOD)
  /\ (len < UINT32_MOD ->
      forall fuel, (Z.to_nat len < fuel)%nat ->
        do_rotate fuel buf off len rotn
        = Ret (take (Z.to_nat off) buf
               ++ (rotate_byte rotn <$> take (Z.to_nat len) (drop (Z.to_nat off) buf))
               ++ drop (Z.to_nat (off + len)) buf)).
Proof.
  intros Hoff Hlen Hin.
  assert (Hret : len < UINT32_MOD ->
      forall fuel, (Z.to_nat len < fuel)%nat ->
        do_rotate fuel buf off len rotn
        = Ret (take (Z.to_nat off) buf
               ++ (rotate_byte rotn <$> take (Z.to_nat len) (drop (Z.to_nat off) buf))
               ++ drop (Z.to_nat (off + len)) buf)).
  { intros Hsmall fuel Hfuel.
    destruct (split_buffer buf (Z.to_nat off) (Z.to_nat len)) as
      (pre & mid & post & -> & Hpre & Hmid); [lia |].
    pose proof (do_rotate_spec fuel rotn pre mid post) as Hspec.
    rewrite Hpre, Hmid, !Z2Nat.id in Hspec by lia.
    rewrite Hspec by lia.
    rewrite (take_app_length' pre _ _ (eq_sym Hpre)),
      (drop_app_length' pre _ _ (eq_sym Hpre)).
    rewrite (take_app_length' mid _ _ (eq_sym Hmid)).
    rewrite (app_assoc pre mid post).
    rewrite (drop_app_length' (pre ++ mid) post (Z.to_nat (off + len)))
      by (rewrite length_app; lia).
    reflexivity. }
  split; [| exact Hret].
  split.
  - intros (fuel & out & Hrun).
    destruct (Z.lt_ge_cases len UINT32_MOD) as [H | H]; [exact H | exfalso].
    unfold do_rotate in Hrun.
    rewrite (do_rotate_loop_never_exits rotn off len H fuel 0 buf) in Hrun;
      [discriminate | | exact Hoff | lia].
    split; [lia | reflexivity].
  - intros H. exists (S (Z.to_nat len)). eexists. apply Hret; [exact H | lia].
Qed.

(** X2 on the five bytes of Hello with rotation 13. *)
Lemma do_rotate_returns_iff_witness :
  ((exists fuel out, do_rotate fuel hello 0 5 13 = Ret out) <-> 5 < UINT32_MOD)
  /\ (5 < UINT32_MOD ->
      forall fuel, (Z.to_nat 5 < fuel)%nat ->
        do_rotate fuel hello 0 5 13
        = Ret (take (Z.to_nat 0) hello
               ++ (rotate_byte 13 <$> take (Z.to_nat 5) (drop (Z.to_nat 0) hello))
               ++ drop (Z.to_nat (0 + 5)) hello)).
Proof.
  apply (do_rotate_returns_iff hello 0 5 13).
  - lia.
  - lia.
  - vm_compute. discriminate.
Defined.

(** ** The instance that encodes and the instance that decodes *)

(* Rotation 0, the rotation of the global instance, and its inverse 26
   move no byte. *)
Lemma rotate_byte_template b : rotate_byte 0 b = b /\ rotate_byte (u32 (26 - 0)) b = b.
Proof. destruct b; split; vm_compute; reflexivity. Qed.

(* The inverse rotation of one key does not undo the rotation of another
   on any letter. *)
Lemma rotate_byte_wrong_key p q b :
  valid_rot p -> valid_rot q -> p <> q -> isalpha b = true ->
  rotate_byte (u32 (26 - q)) (rotate_byte p b) <> b.
Proof.
  intros Hp Hq Hpq Hb.
  destruct Hp as [-> | [-> | ->]], Hq as [-> | [-> | ->]];
    try (exfalso; apply Hpq; reflexivity);
    destruct b; first [discriminate Hb | vm_compute; discriminate].
Qed.

(* Encoding under the instance of [f] and decoding the record under the
   instance [c]. *)
Lemma encrypt_then_decrypt (fuel : nat) (f : frame) (c : MY_CRYPTO)
    (x d2 : list byte) (res2 : Z) :
  Z.of_nat (length x) < UINT32_MOD ->
  (length x < fuel)%nat ->
  (length x + 20 <= length (dst f))%nat ->
  (length x <= length d2)%nat ->
  exists f1 f2,
    rotate_encrypt fuel f (Some x) (Z.of_nat (length x)) (Z.of_nat (length x) + 20)
    = Ret (0, f1)
    /\ take (length x) (drop 20 (dst f1)) = (rotate_byte (rot_N (inst f)) <$> x)
    /\ rotate_decrypt fuel (mkFrame c d2 res2 (rnd f1))
         (Some (dst f1)) (Z.of_nat (length x) + 20) (Z.of_nat (length x))
       = Ret (0, f2)
    /\ take (length x) (dst f2)
       = (rotate_byte (u32 (26 - rot_N c)) <$> (rotate_byte (rot_N (inst f)) <$> x)).
Proof.
  intros Hmax Hfuel Hdst Hd2.
  destruct (split_buffer (dst f) 20 (length x)) as (hdr & body & post & Hf & Hhdr & Hbody);
    [lia |].
  destruct (split_buffer hdr 4 16) as (h4 & h16 & tl & Hh & H4 & H16); [lia |].
  assert (tl = []) as ->.
  { apply nil_length_inv. rewrite Hh, !length_app in Hhdr. lia. }
  rewrite app_nil_r in Hh. subst hdr.
  destruct (split_buffer d2 0 (length x)) as (e & d & post2 & Hd & He & Hdlen); [lia |].
  apply nil_length_inv in He. subst e. cbn [app] in Hd.
  pose proof (rotate_encrypt_spec fuel f x [] h4 h16 body post
                (Z.of_nat (length x) + 20)) as Henc.
  rewrite app_nil_r in Henc.
  rewrite Henc; [| rewrite Hf, <- app_assoc; reflexivity | assumption.. | lia].
  clear Henc.
  eexists. eexists. split; [reflexivity |]. cbn [result_len dst inst rnd].
  set (hd := random_bytes 4 (rnd f) ++ random_bytes 16 (advance 4 (rnd f))).
  assert (Hhd : length hd = 20%nat).
  { unfold hd, random_bytes. rewrite length_app, !length_fmap, !length_seq. reflexivity. }
  replace (random_bytes 4 (rnd f) ++ random_bytes 16 (advance 4 (rnd f))
           ++ (rotate_byte (rot_N (inst f)) <$> x) ++ post)
    with (hd ++ (rotate_byte (rot_N (inst f)) <$> x) ++ post)
    by (unfold hd; rewrite <- app_assoc; reflexivity).
  split.
  { rewrite <- Hhd, drop_app_length. apply take_app_length'.
    rewrite length_fmap. reflexivity. }
  replace (Z.of_nat (length x))
    with (Z.of_nat (length (rotate_byte (rot_N (inst f)) <$> x)))
    by (rewrite length_fmap; lia).
  rewrite (rotate_decrypt_spec fuel _ hd (rotate_byte (rot_N (inst f)) <$> x) post d post2).
  - split; [reflexivity |]. cbn [dst result_len inst rot_N count_call].
    apply take_app_length'. rewrite !length_fmap. reflexivity.
  - exact Hd.
  - exact Hhd.
  - rewrite length_fmap. exact Hdlen.
  - rewrite length_fmap. exact Hmax.
  - rewrite length_fmap. exact Hfuel.
  - rewrite length_fmap.
    replace (Z.of_nat (length x) + 20 - 20) with (Z.of_nat (length x)) by lia.
    rewrite Z.mod_small; [lia | unfold UINT32_MOD, SIZE_MOD in *; lia].
Qed.

(** X3.  The global instance that add_my_encryptors registers has
    rotation 0: it lives in static storage and only its count of calls is
    assigned.  A call of rotate_encrypt it serves stores the text
    unchanged after the header, and rotate_decrypt under it hands the
    payload back as it is. *)
Theorem template_stores_text_in_clear (memory : nat) (fuel : nat) (f : frame)
    (x d2 : list byte) (res2 : Z) :
  inst f = my_crypto_global (startup memory) ->
  Z.of_nat (length x) < UINT32_MOD ->
  (length x < fuel)%nat ->
  (length x + 20 <= length (dst f))%nat ->
  (length x <= length d2)%nat ->
  exists f1 f2,
    rotate_encrypt fuel f (Some x) (Z.of_nat (length x)) (Z.of_nat (length x) + 20)
    = Ret (0, f1)
    /\ take (length x) (drop 20 (dst f1)) = x
    /\ rotate_decrypt fuel (mkFrame (inst f1) d2 res2 (rnd f1))
         (Some (dst f1)) (Z.of_nat (length x) + 20) (Z.of_nat (length x))
       = Ret (0, f2)
    /\ take (length x) (dst f2) = x.
Proof.
  intros Hinst Hmax Hfuel Hdst Hd2.
  destruct (encrypt_then_decrypt fuel f (count_call (inst f)) x d2 res2
              Hmax Hfuel Hdst Hd2) as (f1 & f2 & Henc & Hpay & Hdec & Hback).
  assert (Hid : forall l : list byte, rotate_byte 0 <$> l = l).
  { intros l. induction l as [| b l IH]; [reflexivity |].
    cbn [fmap list_fmap]. f_equal; [apply rotate_byte_template | exact IH]. }
  assert (Hid' : forall l : list byte, rotate_byte (u32 (26 - 0)) <$> l = l).
  { intros l. induction l as [| b l IH]; [reflexivity |].
    cbn [fmap list_fmap]. f_equal; [apply rotate_byte_template | exact IH]. }
  rewrite Hinst in Hpay, Hback. cbn [startup add_my_encryptors my_crypto_global
    rot_N count_call] in Hpay, Hback.
  rewrite Hid in Hpay. rewrite Hid, Hid' in Hback.
  exists f1, f2. split; [exact Henc |]. split; [exact Hpay |].
  rewrite (rotate_encrypt_counts _ _ _ _ _ _ _ Henc).
  split; [exact Hdec | exact Hback].
Qed.

(** X3 on the text Hello, served by the global instance at startup. *)
Lemma template_stores_text_in_clear_witness :
  exists f1 f2,
    rotate_encrypt 6 (mkFrame (my_crypto_global (startup 3)) (replicate 25 x00) 0 no_rng)
      (Some hello) (Z.of_nat (length hello)) (Z.of_nat (length hello) + 20)
    = Ret (0, f1)
    /\ take (length hello) (drop 20 (dst f1)) = hello
    /\ rotate_decrypt 6 (mkFrame (inst f1) hello_back 0 (rnd f1))
         (Some (dst f1)) (Z.of_nat (length hello) + 20) (Z.of_nat (length hello))
       = Ret (0, f2)
    /\ take (length hello) (dst f2) = hello.
Proof.
  apply (template_stores_text_in_clear 3 6
           (mkFrame (my_crypto_global (startup 3)) (replicate 25 x00) 0 no_rng)
           hello hello_back 0).
  - reflexivity.
  - reflexivity.
  - vm_compute. lia.
  - vm_compute. lia.
  - vm_compute. lia.
Defined.

(** X4.  A record encoded under one of the three rotations and decoded by
    an instance with another of them does not give the text back:
    rotate_decrypt returns 0, every letter of the text comes out as a
    different byte, and the bytes that are not letters come out unchanged. *)
Theorem wrong_key_does_not_decode (fuel : nat) (f : frame) (c : MY_CRYPTO)
    (x d2 : list byte) (res2 : Z) :
  valid_rot (rot_N (inst f)) -> valid_rot (rot_N c) ->
  rot_N (inst f) <> rot_N c ->
  Z.of_nat (length x) < UINT32_MOD ->
  (length x < fuel)%nat ->
  (length x + 20 <= length (dst f))%nat ->
  (length x <= length d2)%nat ->
  exists f1 f2,
    rotate_encrypt fuel f (Some x) (Z.of_nat (length x)) (Z.of_nat (length x) + 20)
    = Ret (0, f1)
    /\ rotate_decrypt fuel (mkFrame c d2 res2 (rnd f1))
         (Some (dst f1)) (Z.of_nat (length x) + 20) (Z.of_nat (length x))
       = Ret (0, f2)
    /\ (forall (i : nat) b, x !! i = Some b -> isalpha b = true ->
          exists b', dst f2 !! i = Some b' /\ b' <> b)
    /\ (forall (i : nat) b, x !! i = Some b -> isalpha b = false ->
          dst f2 !! i = Some b).
Proof.
  intros Hp Hq Hpq Hmax Hfuel Hdst Hd2.
  destruct (encrypt_then_decrypt fuel f c x d2 res2 Hmax Hfuel Hdst Hd2)
    as (f1 & f2 & Henc & _ & Hdec & Hback).
  exists f1, f2. split; [exact Henc |]. split; [exact Hdec |].
  assert (Hat : forall (i : nat) b, x !! i = Some b ->
            dst f2 !! i
            = Some (rotate_byte (u32 (26 - rot_N c)) (rotate_byte (rot_N (inst f)) b))).
  { intros i b Hi.
    rewrite <- (lookup_take_lt (dst f2) (length x) i)
      by (apply lookup_lt_Some in Hi; exact Hi).
    rewrite Hback, !list_lookup_fmap, Hi. reflexivity. }
  split.
  - intros i b Hi Hb. eexists. split; [apply Hat; exact Hi |].
    apply rotate_byte_wrong_key; assumption.
  - intros i b Hi Hb. rewrite (Hat i b Hi).
    rewrite (rotate_byte_not_alpha _ b Hb), (rotate_byte_not_alpha _ b Hb).
    reflexivity.
Qed.

(** X4 on the text Hello, encoded for keyid user1 and decoded by an
    instance for keyid user2. *)
Lemma wrong_key_does_not_decode_witness :
  exists f1 f2,
    rotate_encrypt 6 (user1_frame 25) (Some hello) (Z.of_nat (length hello))
      (Z.of_nat (length hello) + 20) = Ret (0, f1)
    /\ rotate_decrypt 6 (mkFrame user2_instance hello_back 0 (rnd f1))
         (Some (dst f1)) (Z.of_nat (length hello) + 20) (Z.of_nat (length hello))
       = Ret (0, f2)
    /\ (forall (i : nat) b, hello !! i = Some b -> isalpha b = true ->
          exists b', dst f2 !! i = Some b' /\ b' <> b)
    /\ (forall (i : nat) b, hello !! i = Some b -> isalpha b = false ->
          dst f2 !! i = Some b).
Proof.
  apply (wrong_key_does_not_decode 6 (user1_frame 25) user2_instance hello hello_back 0).
  - left. reflexivity.
  - right. right. reflexivity.
  - discriminate.
  - reflexivity.
  - vm_compute. lia.
  - vm_compute. lia.
  - vm_compute. lia.
Defined.

(** ** What rotate_decrypt does not verify *)

(** X5.  rotate_decrypt does not look at the 20 bytes of the header: two
    records that differ only there have the same outcome, whatever the
    lengths passed with them.  The checksum is not verified. *)
Theorem decrypt_ignores_the_header (fuel : nat) (f : frame)
    (hdr hdr' body : list byte) (src_len dst_len : Z) :
  length hdr = 20%nat -> length hdr' = 20%nat ->
  rotate_decrypt fuel f (Some (hdr ++ body)) src_len dst_len
  = rotate_decrypt fuel f (Some (hdr' ++ body)) src_len dst_len.
Proof.
  intros H H'. unfold rotate_decrypt.
  destruct (dst_len <? sz (sz (src_len - CHKSUM_LEN) - IV_LEN)); [reflexivity |].
  change (u32 (CHKSUM_LEN + IV_LEN)) with 20.
  unfold memcpy. rewrite !length_app, H, H'.
  change (Z.to_nat 20) with 20%nat.
  rewrite (drop_app_length' hdr body 20 (eq_sym H)).
  rewrite (drop_app_length' hdr' body 20 (eq_sym H')).
  reflexivity.
Qed.

(** X5 on the payload Hello behind a header of zeros and behind one of
    0xff bytes. *)
Lemma decrypt_ignores_the_header_witness :
  rotate_decrypt 6 (frame_of 5) (Some (replicate 20 x00 ++ hello)) 25 5
  = rotate_decrypt 6 (frame_of 5) (Some (replicate 20 xff ++ hello)) 25 5.
Proof.
  apply (decrypt_ignores_the_header 6 (frame_of 5) (replicate 20 x00)
           (replicate 20 xff) hello 25 5); reflexivity.
Defined.

(** X6.  rotate_decrypt copies dst_len bytes from the 21st byte of the
    source on, whatever src_len says: it tests that the capacity is not
    below the payload, not that it is not above.  When the source holds
    just the record and the capacity is larger than the payload, memcpy
    reads past the end of the source. *)
Theorem decrypt_reads_capacity_bytes (fuel : nat) (f : frame) (s : list byte)
    (dst_len : Z) :
  (20 <= length s)%nat ->
  Z.of_nat (length s) < SIZE_MOD ->
  Z.of_nat (length s) - 20 < dst_len ->
  rotate_decrypt fuel f (Some s) (Z.of_nat (length s)) dst_len = UB.
Proof.
  intros Hs Hmax Hcap. unfold rotate_decrypt.
  rewrite sz_sub_header.
  rewrite Z.mod_small by lia.
  destruct (dst_len <? Z.of_nat (length s) - 20) eqn:E;
    [apply Z.ltb_lt in E; lia |].
  change (u32 (CHKSUM_LEN + IV_LEN)) with 20.
  unfold memcpy.
  replace (20 + dst_len <=? Z.of_nat (length s)) with false
    by (symmetry; apply Z.leb_gt; lia).
  rewrite andb_false_r. reflexivity.
Qed.

(** X6 on a record of 25 bytes with a capacity of 6. *)
Lemma decrypt_reads_capacity_bytes_witness :
  rotate_decrypt 7 (frame_of 6) (Some (replicate 20 x00 ++ hello))
    (Z.of_nat (length (replicate 20 x00 ++ hello))) 6 = UB.
Proof.
  apply (decrypt_reads_capacity_bytes 7 (frame_of 6) (replicate 20 x00 ++ hello) 6).
  - vm_compute. lia.
  - reflexivity.
  - reflexivity.
Defined.

(** ** The test of the capacity *)

Lemma bind_Ret {A B : Type} (m : result A) (k : A -> result B) (b : B) :
  (x ← m; k x) = Ret b -> exists a, m = Ret a /\ k a = Ret b.
Proof. destruct m as [a | |]; cbn; [eauto | discriminate..]. Qed.

(** X7.  With a source that is not NULL, rotate_encrypt returns ENOMEM if
    and only if the capacity is below src_len + 20, and rotate_decrypt if
    and only if it is below src_len - 20, both computed in size_t; a call
    that returns ENOMEM has counted itself and has changed nothing else. *)
Theorem ENOMEM_iff_capacity_too_small (fuel : nat) (f : frame) (s : list byte)
    (src_len dst_len : Z) :
  ((exists f', rotate_encrypt fuel f (Some s) src_len dst_len = Ret (ENOMEM, f'))
   <-> dst_len < (src_len + 20) mod SIZE_MOD)
  /\ ((exists f', rotate_decrypt fuel f (Some s) src_len dst_len = Ret (ENOMEM, f'))
      <-> dst_len < (src_len - 20) mod SIZE_MOD)
  /\ (forall f',
        rotate_encrypt fuel f (Some s) src_len dst_len = Ret (ENOMEM, f')
        \/ rotate_decrypt fuel f (Some s) src_len dst_len = Ret (ENOMEM, f') ->
        f' = mkFrame (count_call (inst f)) (dst f) (result_len f) (rnd f)).
Proof.
  unfold rotate_encrypt, rotate_decrypt.
  rewrite sz_add_header, sz_sub_header.
  assert (Henc : forall f',
            (d1 ← memcpy (dst f) (u32 (CHKSUM_LEN + IV_LEN)) s 0 src_len;
             d2 ← do_rotate fuel d1 (u32 (CHKSUM_LEN + IV_LEN)) src_len
                    (rot_N (count_call (inst f)));
             '(d3, r1) ← make_cksum d2 0 (rnd f);
             '(d4, r2) ← make_iv d3 (0 + CHKSUM_LEN) r1;
             Ret (0, mkFrame (count_call (inst f)) d4 dst_len r2))
            <> Ret (ENOMEM, f')).
  { intros f' H.
    apply bind_Ret in H as (d1 & _ & H). apply bind_Ret in H as (d2 & _ & H).
    apply bind_Ret in H as ([d3 r1] & _ & H). apply bind_Ret in H as ([d4 r2] & _ & H).
    discriminate H. }
  assert (Hdec : forall f',
            (d1 ← memcpy (dst f) 0 s (u32 (CHKSUM_LEN + IV_LEN)) dst_len;
             d2 ← do_rotate fuel d1 0 dst_len (u32 (26 - rot_N (count_call (inst f))));
             Ret (0, mkFrame (count_call (inst f)) d2 dst_len (rnd f)))
            <> Ret (ENOMEM, f')).
  { intros f' H.
    apply bind_Ret in H as (d1 & _ & H). apply bind_Ret in H as (d2 & _ & H).
    discriminate H. }
  destruct (dst_len <? (src_len + 20) mod SIZE_MOD) eqn:E1;
    destruct (dst_len <? (src_len - 20) mod SIZE_MOD) eqn:E2;
    first [apply Z.ltb_lt in E1 | apply Z.ltb_ge in E1];
    first [apply Z.ltb_lt in E2 | apply Z.ltb_ge in E2].
  - split; [split; [intros _; exact E1 | intros _; eauto] |].
    split; [split; [intros _; exact E2 | intros _; eauto] |].
    intros f' [[= <-] | [= <-]]; reflexivity.
  - split; [split; [intros _; exact E1 | intros _; eauto] |].
    split; [split; [intros [f' H]; destruct (Hdec f' H) | lia] |].
    intros f' [[= <-] | H]; [reflexivity | destruct (Hdec f' H)].
  - split; [split; [intros [f' H]; destruct (Henc f' H) | lia] |].
    split; [split; [intros _; exact E2 | intros _; eauto] |].
    intros f' [H | [= <-]]; [destruct (Henc f' H) | reflexivity].
  - split; [split; [intros [f' H]; destruct (Henc f' H) | lia] |].
    split; [split; [intros [f' H]; destruct (Hdec f' H) | lia] |].
    intros f' [H | H]; [destruct (Henc f' H) | destruct (Hdec f' H)].
Qed.

(** ** The outcomes of rotate_customize *)

(* keyid system with a password that is not the system password, or with
   none: the code at the label err runs. *)
Lemma customize_policy_denied (st st2 : state) (a : addr) (c : MY_CRYPTO)
    (item : WT_CONFIG_ITEM) (cp : option eptr) :
  in_progress st st2 a c ->
  str item = SYS_KEYID ->
  match password c with
  | Some p => exists s, heap st2 !! p = Some (stashed (mkItem s))
                        /\ nul_free s = true /\ s <> SYS_PW
  | None => True
  end ->
  exists st',
    customize_policy st2 a c item cp = Ret (EPERM, st', cp)
    /\ heap st' = heap st
    /\ my_crypto_global st' = my_crypto_global st.
Proof.
  intros Hin Hitem Hpw. unfold customize_policy.
  replace (ITEM_MATCHES item "system") with true
    by (symmetry; apply ITEM_MATCHES_iff; [reflexivity | exact Hitem]).
  cbn match.
  assert (Hbad : (pw ← match password c with
                       | Some p => s ← load_chars st2 p; Ret (Some s)
                       | None => Ret None
                       end;
                  Ret (match pw with
                       | Some s => negb (strcmp s SYS_PW =? 0)
                       | None => true
                       end)) = Ret true).
  { destruct (password c) as [p |] eqn:Hp; [| reflexivity].
    destruct Hpw as (s & Hlive & Hnf & Hne).
    unfold load_chars. rewrite Hlive. unfold stashed. cbn [mbind result_bind].
    unfold len, strlen. cbn [str].
    rewrite Nat2Z.id, strncpy_nul_free by exact Hnf.
    destruct (strcmp (s ++ String NUL EmptyString) SYS_PW =? 0) eqn:E; [| reflexivity].
    apply Z.eqb_eq in E. apply strcmp_terminated in E; [contradiction | exact Hnf |].
    reflexivity. }
  destruct (match password c with
            | Some p => s ← load_chars st2 p; Ret (Some s)
            | None => Ret None
            end) as [pw | |]; cbn [mbind result_bind] in Hbad |- *; try discriminate.
  injection Hbad as ->.
  apply (customize_err_unwinds st st2 a c cp Hin).
Qed.

(* The outcomes of a rotate_customize that has the memory it needs, for a
   configuration with a keyid. *)
Lemma customize_outcome (st : state) (e : eptr) (orig : MY_CRYPTO)
    (cfg : WT_CONFIG_ARG) (k0 s0 : WT_CONFIG_ITEM) (cp : option eptr) (k : string) :
  load_crypto st e = Ret orig ->
  (allocations_needed cfg <= avail st)%nat ->
  cfg !! "keyid"%string = Some k ->
  (forall s, cfg !! "secretkey"%string = Some s -> nul_free s = true) ->
  exists a st2 c2,
    in_progress st st2 a c2
    /\ let finish n :=
         Ret (0, store_crypto st2 (Heap a)
                   (count_call (mkCrypto n (num_calls c2) (keyid c2) (password c2))),
              Some (Heap a)) in
       (k = SYS_KEYID /\ cfg !! "secretkey"%string = Some SYS_PW
        /\ rotate_customize st e cfg k0 s0 cp = finish 13)
       \/ (k = SYS_KEYID /\ cfg !! "secretkey"%string <> Some SYS_PW
           /\ exists st',
                rotate_customize st e cfg k0 s0 cp = Ret (EPERM, st', cp)
                /\ heap st' = heap st
                /\ my_crypto_global st' = my_crypto_global st)
       \/ (k = USER1_KEYID /\ rotate_customize st e cfg k0 s0 cp = finish 4)
       \/ (k = USER2_KEYID /\ rotate_customize st e cfg k0 s0 cp = finish 19)
       \/ (k <> SYS_KEYID /\ k <> USER1_KEYID /\ k <> USER2_KEYID
           /\ rotate_customize st e cfg k0 s0 cp = Ret (EINVAL, st2, cp)).
Proof.
  intros Hload Hav Hk Hnf.
  destruct (customize_paths st e orig cfg k0 s0 cp Hload)
    as [[Hlt _] | (_ & a & st2 & c2 & Heq & Hin & _ & _ & Hpw)]; [lia |].
  rewrite (config_get_present cfg "keyid" k k0 Hk) in Heq. cbn [snd] in Heq.
  exists a, st2, c2. split; [exact Hin |]. cbn zeta. rewrite Heq.
  destruct (string_dec k SYS_KEYID) as [-> | H1].
  - destruct (decide (cfg !! "secretkey"%string = Some SYS_PW)) as [Hs | Hs].
    + left. split; [reflexivity |]. split; [exact Hs |].
      rewrite (config_get_present cfg "secretkey" SYS_PW s0 Hs) in Hpw.
      cbn [snd] in Hpw. unfold wanted in Hpw. rewrite Hs in Hpw.
      destruct (password c2) as [p |] eqn:Hp; [| vm_compute in Hpw; discriminate].
      destruct Hpw as [_ Hlive].
      pose proof (customize_policy_system st2 a p c2 (mkItem SYS_KEYID) cp
                    eq_refl Hp Hlive) as Hrun.
      rewrite Hp in Hrun. exact Hrun.
    + right. left. split; [reflexivity |]. split; [exact Hs |].
      apply (customize_policy_denied st st2 a c2 (mkItem SYS_KEYID) cp Hin eq_refl).
      destruct (password c2) as [p |]; [| exact I].
      destruct Hpw as [Hw Hlive]. unfold wanted in Hw.
      destruct (cfg !! "secretkey"%string) as [s |] eqn:Hcs; [| discriminate].
      exists s. rewrite (config_get_present cfg "secretkey" s s0 Hcs) in Hlive.
      split; [exact Hlive |]. split; [apply Hnf; reflexivity | congruence].
  - destruct (string_dec k USER1_KEYID) as [-> | H2].
    { right. right. left. split; [reflexivity |].
      apply customize_policy_user. left. split; reflexivity. }
    destruct (string_dec k USER2_KEYID) as [-> | H3].
    { right. right. right. left. split; [reflexivity |].
      apply customize_policy_user. right. split; reflexivity. }
    right. right. right. right.
    split; [exact H1 |]. split; [exact H2 |]. split; [exact H3 |].
    unfold customize_policy.
    rewrite (ITEM_MATCHES_other (mkItem k) "system") by (first [reflexivity | exact H1]).
    rewrite (ITEM_MATCHES_other (mkItem k) USER1_KEYID) by (first [reflexivity | exact H2]).
    rewrite (ITEM_MATCHES_other (mkItem k) USER2_KEYID) by (first [reflexivity | exact H3]).
    reflexivity.
Qed.

(** X8.  With the memory it needs and a configuration that holds a keyid,
    rotate_customize returns EPERM if and only if the keyid is system and
    the secretkey is not the system password (absent, empty or another
    text).  When it returns EPERM, *customp is as it was, every block
    allocated on the way has been freed and the global instance is
    unchanged. *)
Theorem customize_EPERM_iff (st : state) (e : eptr) (orig : MY_CRYPTO)
    (cfg : WT_CONFIG_ARG) (k0 s0 : WT_CONFIG_ITEM) (cp : option eptr) (k : string) :
  load_crypto st e = Ret orig ->
  (allocations_needed cfg <= avail st)%nat ->
  cfg !! "keyid"%string = Some k ->
  (forall s, cfg !! "secretkey"%string = Some s -> nul_free s = true) ->
  ((exists st' cp', rotate_customize st e cfg k0 s0 cp = Ret (EPERM, st', cp'))
   <-> k = SYS_KEYID /\ cfg !! "secretkey"%string <> Some SYS_PW)
  /\ (forall st' cp',
        rotate_customize st e cfg k0 s0 cp = Ret (EPERM, st', cp') ->
        cp' = cp /\ heap st' = heap st
        /\ my_crypto_global st' = my_crypto_global st).
Proof.
  intros Hload Hav Hk Hnf.
  destruct (customize_outcome st e orig cfg k0 s0 cp k Hload Hav Hk Hnf)
    as (a & st2 & c2 & Hin & Hcases). cbn zeta in Hcases.
  destruct Hcases as [(_ & Hsec & Hrun) | [(Hsys & Hs & st1 & Hrun & Hheap & Hglob)
    | [(Hu & Hrun) | [(Hu & Hrun) | (H1 & _ & _ & Hrun)]]]]; rewrite Hrun.
  - split; [split |]; [intros (? & ? & [=]) | | intros ? ? [=]].
    intros [_ Hs]. congruence.
  - split; [split |].
    + intros _. split; assumption.
    + intros _. eauto.
    + intros st' cp' [= <- <-]. repeat split; assumption.
  - split; [split |]; [intros (? & ? & [=]) | | intros ? ? [=]].
    intros [E _]. rewrite Hu in E. discriminate.
  - split; [split |]; [intros (? & ? & [=]) | | intros ? ? [=]].
    intros [E _]. rewrite Hu in E. discriminate.
  - split; [split |]; [intros (? & ? & [=]) | | intros ? ? [=]].
    intros [E _]. contradiction.
Qed.

(** X8 on the configuration main reopens the connection with: keyid
    system, secretkey bad_password. *)
Lemma customize_EPERM_iff_witness :
  ((exists st' cp',
      rotate_customize (startup 3) Global bad_password_config no_item no_item None
      = Ret (EPERM, st', cp'))
   <-> SYS_KEYID = SYS_KEYID /\ bad_password_config !! "secretkey"%string <> Some SYS_PW)
  /\ (forall st' cp',
        rotate_customize (startup 3) Global bad_password_config no_item no_item None
        = Ret (EPERM, st', cp') ->
        cp' = None /\ heap st' = heap (startup 3)
        /\ my_crypto_global st' = my_crypto_global (startup 3)).
Proof.
  apply (customize_EPERM_iff (startup 3) Global (mkCrypto 0 0 None None)
           bad_password_config no_item no_item None SYS_KEYID).
  - reflexivity.
  - vm_compute. lia.
  - reflexivity.
  - intros s H. vm_compute in H. injection H as <-. reflexivity.
Defined.

(** X9.  With the memory it needs and a configuration that holds a keyid,
    rotate_customize returns EINVAL if and only if the keyid is none of
    system, user1 and user2.  When it returns EINVAL, *customp is as it
    was, the global instance and the blocks that were live are unchanged
    and free has not been called: the structure allocated for the new
    instance is still allocated. *)
Theorem customize_EINVAL_iff (st : state) (e : eptr) (orig : MY_CRYPTO)
    (cfg : WT_CONFIG_ARG) (k0 s0 : WT_CONFIG_ITEM) (cp : option eptr) (k : string) :
  load_crypto st e = Ret orig ->
  (allocations_needed cfg <= avail st)%nat ->
  cfg !! "keyid"%string = Some k ->
  (forall s, cfg !! "secretkey"%string = Some s -> nul_free s = true) ->
  ((exists st' cp', rotate_customize st e cfg k0 s0 cp = Ret (EINVAL, st', cp'))
   <-> k <> SYS_KEYID /\ k <> USER1_KEYID /\ k <> USER2_KEYID)
  /\ (forall st' cp',
        rotate_customize st e cfg k0 s0 cp = Ret (EINVAL, st', cp') ->
        cp' = cp
        /\ my_crypto_global st' = my_crypto_global st
        /\ released st' = released st
        /\ (forall b blk, heap st !! b = Some blk -> heap st' !! b = Some blk)
        /\ exists a c, heap st !! a = None /\ heap st' !! a = Some (BCrypto c)).
Proof.
  intros Hload Hav Hk Hnf.
  destruct (customize_outcome st e orig cfg k0 s0 cp k Hload Hav Hk Hnf)
    as (a & st2 & c2 & Hin & Hcases). cbn zeta in Hcases.
  destruct Hcases as [(Hu & _ & Hrun) | [(Hu & _ & st1 & Hrun & _)
    | [(Hu & Hrun) | [(Hu & Hrun) | (H1 & H2 & H3 & Hrun)]]]]; rewrite Hrun.
  1-4: split; [split |]; [intros (? & ? & [=]) | | intros ? ? [=]];
       intros (E1 & E2 & E3); contradiction.
  split; [split |].
  - intros _. repeat split; assumption.
  - intros _. eauto.
  - intros st' cp' [= <- <-].
    pose proof (in_progress_extends _ _ _ _ Hin) as Hext.
    destruct Hin as (Ha & Ha2 & Hg & Hr & _).
    split; [reflexivity |]. split; [exact Hg |]. split; [exact Hr |].
    split; [exact Hext |]. exists a, c2. split; assumption.
Qed.

(** X9 on the configuration of main with keyid userbad. *)
Lemma customize_EINVAL_iff_witness :
  ((exists st' cp',
      rotate_customize (startup 3) Global userbad_config no_item no_item None
      = Ret (EINVAL, st', cp'))
   <-> USERBAD_KEYID <> SYS_KEYID /\ USERBAD_KEYID <> USER1_KEYID
       /\ USERBAD_KEYID <> USER2_KEYID)
  /\ (forall st' cp',
        rotate_customize (startup 3) Global userbad_config no_item no_item None
        = Ret (EINVAL, st', cp') ->
        cp' = None
        /\ my_crypto_global st' = my_crypto_global (startup 3)
        /\ released st' = released (startup 3)
        /\ (forall b blk, heap (startup 3) !! b = Some blk -> heap st' !! b = Some blk)
        /\ exists a c, heap (startup 3) !! a = None /\ heap st' !! a = Some (BCrypto c)).
Proof.
  apply (customize_EINVAL_iff (startup 3) Global (mkCrypto 0 0 None None)
           userbad_config no_item no_item None USERBAD_KEYID).
  - reflexivity.
  - vm_compute. lia.
  - reflexivity.
  - intros s H. vm_compute in H. discriminate H.
Defined.

(** X10.  rotate_customize returns ENOMEM if and only if fewer
    allocations succeed than it makes: one for the structure and one for
    each of keyid and secretkey that the configuration holds with a text
    that is not empty.  When it returns ENOMEM, *customp is as it was,
    the global instance and the blocks that were live are unchanged and
    free has not been called: nothing has changed when the first
    allocation failed, and the structure is still allocated when a later
    one did. *)
Theorem customize_ENOMEM_iff (st : state) (e : eptr) (orig : MY_CRYPTO)
    (cfg : WT_CONFIG_ARG) (k0 s0 : WT_CONFIG_ITEM) (cp : option eptr) :
  load_crypto st e = Ret orig ->
  ((exists st' cp', rotate_customize st e cfg k0 s0 cp = Ret (ENOMEM, st', cp'))
   <-> (avail st < allocations_needed cfg)%nat)
  /\ (forall st' cp',
        rotate_customize st e cfg k0 s0 cp = Ret (ENOMEM, st', cp') ->
        cp' = cp
        /\ my_crypto_global st' = my_crypto_global st
        /\ released st' = released st
        /\ (forall b blk, heap st !! b = Some blk -> heap st' !! b = Some blk)
        /\ (avail st = 0%nat -> st' = st)
        /\ ((0 < avail st)%nat ->
            exists a c, heap st !! a = None /\ heap st' !! a = Some (BCrypto c))).
Proof.
  intros Hload.
  destruct (customize_paths st e orig cfg k0 s0 cp Hload)
    as [(Hlt & st1 & Hrun & Hrest) | (Hge & a & st2 & c2 & Heq & Hin & _)].
  - rewrite Hrun. split; [split |].
    + intros _. exact Hlt.
    + intros _. eauto.
    + intros st' cp' [= <- <-]. split; [reflexivity | exact Hrest].
  - assert (Hno : forall st' cp',
              rotate_customize st e cfg k0 s0 cp <> Ret (ENOMEM, st', cp')).
    { intros st' cp' Hrun. rewrite Heq in Hrun.
      destruct (customize_policy_frame _ _ _ _ _ _ _ _ _ Hin Hrun)
        as (_ & _ & [(E & _) | [(E & _) | (E & _)]]); discriminate E. }
    split; [split |].
    + intros (st' & cp' & Hrun). exfalso. exact (Hno _ _ Hrun).
    + intros Hlt. lia.
    + intros st' cp' Hrun. exfalso. exact (Hno _ _ Hrun).
Qed.

(** X10 on keyid user1 with memory for one allocation: the copy of the
    keyid cannot be allocated. *)
Lemma customize_ENOMEM_iff_witness :
  ((exists st' cp',
      rotate_customize (startup 1) Global user1_config no_item no_item None
      = Ret (ENOMEM, st', cp'))
   <-> (avail (startup 1) < allocations_needed user1_config)%nat)
  /\ (forall st' cp',
        rotate_customize (startup 1) Global user1_config no_item no_item None
        = Ret (ENOMEM, st', cp') ->
        cp' = None
        /\ my_crypto_global st' = my_crypto_global (startup 1)
        /\ released st' = released (startup 1)
        /\ (forall b blk, heap (startup 1) !! b = Some blk -> heap st' !! b = Some blk)
        /\ (avail (startup 1) = 0%nat -> st' = startup 1)
        /\ ((0 < avail (startup 1))%nat ->
            exists a c, heap (startup 1) !! a = None /\ heap st' !! a = Some (BCrypto c))).
Proof.
  apply (customize_ENOMEM_iff (startup 1) Global (mkCrypto 0 0 None None)
           user1_config no_item no_item None).
  reflexivity.
Defined.

(** X11.  Whatever rotate_customize returns, for whatever configuration,
    the global instance and every block that was live are unchanged, and
    so is the instance that served the call.  When it returns a value
    other than 0, *customp is as it was; when it returns 0, *customp is a
    block that was not live before, hence not the instance that served
    the call. *)
Theorem customize_frame (st st' : state) (e : eptr) (orig : MY_CRYPTO)
    (cfg : WT_CONFIG_ARG) (k0 s0 : WT_CONFIG_ITEM) (cp cp' : option eptr) (r : Z) :
  load_crypto st e = Ret orig ->
  rotate_customize st e cfg k0 s0 cp = Ret (r, st', cp') ->
  my_crypto_global st' = my_crypto_global st
  /\ (forall b blk, heap st !! b = Some blk -> heap st' !! b = Some blk)
  /\ load_crypto st' e = Ret orig
  /\ (r <> 0 -> cp' = cp)
  /\ (r = 0 -> exists a, cp' = Some (Heap a) /\ heap st !! a = None
                         /\ e <> Heap a).
Proof.
  intros Hload Hrun.
  assert (Hsame : my_crypto_global st' = my_crypto_global st ->
            (forall b blk, heap st !! b = Some blk -> heap st' !! b = Some blk) ->
            load_crypto st' e = Ret orig).
  { intros Hg Hext. destruct e as [| b]; cbn [load_crypto] in *.
    - rewrite Hg. exact Hload.
    - destruct (heap st !! b) as [blk |] eqn:Hb; [| discriminate].
      rewrite (Hext b blk Hb). exact Hload. }
  destruct (customize_paths st e orig cfg k0 s0 cp Hload)
    as [(_ & st1 & Hfail & Hg & _ & Hext & _) | (_ & a & st2 & c2 & Heq & Hin & _)].
  - rewrite Hfail in Hrun. injection Hrun as <- <- <-.
    split; [exact Hg |]. split; [exact Hext |]. split; [auto |].
    split; [reflexivity | discriminate].
  - rewrite Heq in Hrun.
    destruct (customize_policy_frame _ _ _ _ _ _ _ _ _ Hin Hrun)
      as (Hg & Hext & Hcases).
    split; [exact Hg |]. split; [exact Hext |]. split; [auto |].
    destruct Hin as (Ha & _).
    destruct Hcases as [(-> & -> & _) | [(-> & -> & _) | (-> & -> & _)]].
    + split; [intros H; contradiction |]. intros _. exists a.
      split; [reflexivity |]. split; [exact Ha |].
      intros ->. cbn [load_crypto] in Hload. rewrite Ha in Hload. discriminate.
    + split; [reflexivity | discriminate].
    + split; [reflexivity | discriminate].
Qed.

(** X11 on the configuration of main with keyid user1, on the global
    instance at startup. *)
Lemma customize_frame_witness :
  my_crypto_global user1_instance_state = my_crypto_global (startup 3)
  /\ (forall b blk, heap (startup 3) !! b = Some blk ->
        heap user1_instance_state !! b = Some blk)
  /\ load_crypto user1_instance_state Global = Ret (mkCrypto 0 0 None None)
  /\ (0 <> 0 -> Some (Heap 0%nat) = None)
  /\ (0 = 0 -> exists a, Some (Heap 0%nat) = Some (Heap a) /\ heap (startup 3) !! a = None
                         /\ Global <> Heap a).
Proof.
  apply (customize_frame (startup 3) user1_instance_state Global (mkCrypto 0 0 None None)
           user1_config no_item no_item None (Some (Heap 0%nat)) 0).
  - reflexivity.
  - vm_compute. reflexivity.
Defined.

(** ** rotate_customize and rotate_terminate together *)

(* rotate_terminate on an instance as rotate_customize builds it: the heap
   is again what it was before the instance was made. *)
Lemma terminate_in_progress (st st2 : state) (a : addr) (c : MY_CRYPTO) :
  in_progress st st2 a c ->
  exists st',
    rotate_terminate st2 (Heap a) = Ret (0, st')
    /\ heap st' = heap st
    /\ my_crypto_global st' = my_crypto_global st
    /\ length (released st')
       = (1 + match keyid c with Some _ => 1 | None => 0 end
            + match password c with Some _ => 1 | None => 0 end
          + length (released st))%nat.
Proof.
  intros (Ha & Ha2 & Hglob & Hrel & Hkey & Hpass & Hframe).
  unfold rotate_terminate. cbn [load_crypto]. rewrite Ha2.
  cbn [mbind result_bind].
  destruct c as [rot n kid pw]. cbn [password keyid rot_N num_calls count_call] in *.
  destruct pw as [p |], kid as [k |].
  - destruct (Hkey k eq_refl) as (Hka & Hk0 & sk & Hsk).
    destruct (Hpass p eq_refl) as (Hpa & Hp0 & Hpk & sp & Hsp).
    assert (k <> p) by congruence.
    rewrite (free_live _ p (BChars sp)) by (heap_lookup; exact Hsp).
    cbn [mbind result_bind keyid password count_call rot_N num_calls].
    rewrite (free_live _ k (BChars sk)) by (heap_lookup; exact Hsk).
    cbn [mbind result_bind keyid password count_call rot_N num_calls].
    rewrite (free_live _ a (BCrypto (mkCrypto rot (u32 (n + 1)) None None)))
      by (heap_lookup; reflexivity).
    cbn [mbind result_bind].
    eexists. split; [reflexivity |]. cbn [heap my_crypto_global released store_crypto].
    split; [| split; [exact Hglob | cbn [length]; rewrite Hrel; lia]].
    apply map_eq. intros b.
    destruct (decide (b = a)) as [-> |]; [heap_lookup; congruence |].
    destruct (decide (b = k)) as [-> |]; [heap_lookup; congruence |].
    destruct (decide (b = p)) as [-> |]; [heap_lookup; congruence |].
    heap_lookup. apply Hframe; congruence.
  - destruct (Hpass p eq_refl) as (Hpa & Hp0 & Hpk & sp & Hsp).
    rewrite (free_live _ p (BChars sp)) by (heap_lookup; exact Hsp).
    cbn [mbind result_bind keyid password count_call rot_N num_calls].
    rewrite (free_live _ a (BCrypto (mkCrypto rot (u32 (n + 1)) None None)))
      by (heap_lookup; reflexivity).
    cbn [mbind result_bind].
    eexists. split; [reflexivity |]. cbn [heap my_crypto_global released store_crypto].
    split; [| split; [exact Hglob | cbn [length]; rewrite Hrel; lia]].
    apply map_eq. intros b.
    destruct (decide (b = a)) as [-> |]; [heap_lookup; congruence |].
    destruct (decide (b = p)) as [-> |]; [heap_lookup; congruence |].
    heap_lookup. apply Hframe; congruence.
  - destruct (Hkey k eq_refl) as (Hka & Hk0 & sk & Hsk).
    cbn [mbind result_bind keyid password count_call rot_N num_calls].
    rewrite (free_live _ k (BChars sk)) by (heap_lookup; exact Hsk).
    cbn [mbind result_bind keyid password count_call rot_N num_calls].
    rewrite (free_live _ a (BCrypto (mkCrypto rot (u32 (n + 1)) None None)))
      by (heap_lookup; reflexivity).
    cbn [mbind result_bind].
    eexists. split; [reflexivity |]. cbn [heap my_crypto_global released store_crypto].
    split; [| split; [exact Hglob | cbn [length]; rewrite Hrel; lia]].
    apply map_eq. intros b.
    destruct (decide (b = a)) as [-> |]; [heap_lookup; congruence |].
    destruct (decide (b = k)) as [-> |]; [heap_lookup; congruence |].
    heap_lookup. apply Hframe; congruence.
  - cbn [mbind result_bind keyid password count_call rot_N num_calls].
    rewrite (free_live _ a (BCrypto (mkCrypto rot (u32 (n + 1)) None None)))
      by (heap_lookup; reflexivity).
    cbn [mbind result_bind].
    eexists. split; [reflexivity |]. cbn [heap my_crypto_global released store_crypto].
    split; [| split; [exact Hglob | cbn [length]; rewrite Hrel; lia]].
    apply map_eq. intros b.
    destruct (decide (b = a)) as [-> |]; [heap_lookup; congruence |].
    heap_lookup. apply Hframe; congruence.
Qed.

(* Storing into the new instance keeps it in progress, as long as its
   pointers stay. *)
Lemma in_progress_store (st st2 : state) (a : addr) (c c' : MY_CRYPTO) :
  in_progress st st2 a c ->
  keyid c' = keyid c -> password c' = password c ->
  in_progress st (store_crypto st2 (Heap a) c') a c'.
Proof.
  intros (Ha & Ha2 & Hglob & Hrel & Hkey & Hpass & Hframe) Hk Hp.
  unfold in_progress. cbn [store_crypto heap my_crypto_global released].
  rewrite Hk, Hp.
  split; [exact Ha |]. split; [apply lookup_insert_eq |].
  split; [exact Hglob |]. split; [exact Hrel |].
  split.
  { intros k E. destruct (Hkey k E) as (Hka & Hk0 & s & Hs).
    split; [exact Hka |]. split; [exact Hk0 |]. exists s.
    rewrite lookup_insert_ne by congruence. exact Hs. }
  split.
  { intros p E. destruct (Hpass p E) as (Hpa & Hp0 & Hpk & s & Hs).
    split; [exact Hpa |]. split; [exact Hp0 |]. split; [exact Hpk |]. exists s.
    rewrite lookup_insert_ne by congruence. exact Hs. }
  intros b Hb Hbk Hbp. rewrite lookup_insert_ne by congruence.
  apply Hframe; assumption.
Qed.

(** X12.  rotate_terminate undoes a successful rotate_customize: called
    on the instance that was handed back it returns 0, and the heap and
    the global instance are again what they were before rotate_customize
    was called; at most three blocks have been freed. *)
Theorem customize_then_terminate (st st' : state) (e : eptr) (orig : MY_CRYPTO)
    (cfg : WT_CONFIG_ARG) (k0 s0 : WT_CONFIG_ITEM) (cp cp' : option eptr) :
  load_crypto st e = Ret orig ->
  rotate_customize st e cfg k0 s0 cp = Ret (0, st', cp') ->
  exists a st'',
    cp' = Some (Heap a)
    /\ rotate_terminate st' (Heap a) = Ret (0, st'')
    /\ heap st'' = heap st
    /\ my_crypto_global st'' = my_crypto_global st
    /\ (length (released st'') <= 3 + length (released st))%nat.
Proof.
  intros Hload Hrun.
  destruct (customize_paths st e orig cfg k0 s0 cp Hload)
    as [(_ & st1 & Hfail & _) | (_ & a & st2 & c2 & Heq & Hin & _)].
  { rewrite Hfail in Hrun. discriminate. }
  rewrite Heq in Hrun.
  destruct (customize_policy_frame _ _ _ _ _ _ _ _ _ Hin Hrun)
    as (_ & _ & [(_ & -> & _ & c' & -> & Hk & Hp) | [(E & _) | (E & _)]]);
    try discriminate E.
  destruct (terminate_in_progress st _ a c' (in_progress_store _ _ _ _ _ Hin Hk Hp))
    as (st'' & Hterm & Hheap & Hglob & Hlen).
  exists a, st''. split; [reflexivity |]. split; [exact Hterm |].
  split; [exact Hheap |]. split; [exact Hglob |].
  rewrite Hlen. destruct (keyid c'), (password c'); lia.
Qed.

(** X12 on the configuration of main with keyid system, on the global
    instance at startup. *)
Lemma customize_then_terminate_witness :
  exists a st'',
    Some (Heap 0%nat) = Some (Heap a)
    /\ rotate_terminate system_instance_state (Heap a) = Ret (0, st'')
    /\ heap st'' = heap (startup 3)
    /\ my_crypto_global st'' = my_crypto_global (startup 3)
    /\ (length (released st'') <= 3 + length (released (startup 3)))%nat.
Proof.
  apply (customize_then_terminate (startup 3) system_instance_state Global
           (mkCrypto 0 0 None None) system_config no_item no_item None
           (Some (Heap 0%nat))).
  - reflexivity.
  - vm_compute. reflexivity.
Defined.

Lemma free_Ret (st st' : state) (a : addr) :
  free st a = Ret st' ->
  heap st' = delete a (heap st) /\ my_crypto_global st' = my_crypto_global st
  /\ length (released st') = S (length (released st)).
Proof.
  unfold free. destruct (heap st !! a); [| discriminate].
  intros [= <-]. repeat split.
Qed.

(** X13.  A second rotate_terminate on an instance of the heap reads a
    structure that the first call has freed.  On the global instance a
    second call is harmless: the first has set both pointers to NULL, so
    the second returns 0, frees nothing and only counts itself. *)
Theorem terminate_twice (st st' : state) (e : eptr) (r : Z) :
  rotate_terminate st e = Ret (r, st') ->
  match e with
  | Heap a => rotate_terminate st' (Heap a) = UB
  | Global =>
      exists st'',
        rotate_terminate st' Global = Ret (0, st'')
        /\ heap st'' = heap st'
        /\ released st'' = released st'
        /\ my_crypto_global st''
           = mkCrypto (rot_N (my_crypto_global st))
               (u32 (u32 (num_calls (my_crypto_global st) + 1) + 1)) None None
  end.
Proof.
  intros Hrun. unfold rotate_terminate in Hrun.
  apply bind_Ret in Hrun as (c & Hload & Hrun).
  apply bind_Ret in Hrun as ([s1 c1] & H1 & Hrun).
  apply bind_Ret in Hrun as ([s2 c2] & H2 & Hrun).
  destruct e as [| a].
  - injection Hrun as <- <-.
    cbn [load_crypto] in Hload. injection Hload as <-.
    assert (Hc1 : my_crypto_global s1 = c1 /\ password c1 = None
                  /\ rot_N c1 = rot_N (my_crypto_global st)
                  /\ num_calls c1 = u32 (num_calls (my_crypto_global st) + 1)).
    { destruct (password (count_call (my_crypto_global st))) as [p |] eqn:Hp.
      - apply bind_Ret in H1 as (s & _ & [= <- <-]). repeat split.
      - injection H1 as <- <-. repeat split. exact Hp. }
    destruct Hc1 as (Hg1 & Hp1 & Hr1 & Hn1).
    assert (Hc2 : my_crypto_global s2 = c2 /\ password c2 = None /\ keyid c2 = None
                  /\ rot_N c2 = rot_N c1 /\ num_calls c2 = num_calls c1).
    { destruct (keyid c1) as [k |] eqn:Hk.
      - apply bind_Ret in H2 as (s & _ & [= <- <-]). repeat split. exact Hp1.
      - injection H2 as <- <-. repeat split; assumption. }
    destruct Hc2 as (Hg2 & Hp2 & Hk2 & Hr2 & Hn2).
    unfold rotate_terminate. cbn [load_crypto mbind result_bind].
    rewrite Hg2. destruct c2 as [rot2 n2 k2 p2].
    cbn [rot_N num_calls keyid password] in Hp2, Hk2, Hr2, Hn2. subst k2 p2.
    cbn [count_call password keyid rot_N num_calls mbind result_bind].
    eexists. split; [reflexivity |]. cbn [store_crypto heap released my_crypto_global].
    split; [reflexivity |]. split; [reflexivity |].
    rewrite Hr2, Hn2, Hr1, Hn1. reflexivity.
  - apply bind_Ret in Hrun as (s3 & H3 & [= <- <-]).
    apply free_Ret in H3 as (Hheap & _).
    unfold rotate_terminate. cbn [load_crypto]. rewrite Hheap, lookup_delete_eq.
    reflexivity.
Qed.

(** X13 on the instance rotate_customize makes for keyid user1, after
    a first rotate_terminate. *)
Lemma terminate_twice_witness :
  rotate_terminate user1_released_state (Heap 0%nat) = UB.
Proof.
  apply (terminate_twice user1_instance_state user1_released_state (Heap 0%nat) 0).
  vm_compute. reflexivity.
Defined.

(** ** ITEM_MATCHES *)

(** X14.  ITEM_MATCHES holds exactly when the text of the item is the
    string it is compared with, a literal without NUL: the lengths are
    compared first, so a prefix of the string, or a text that extends it,
    does not match. *)
Theorem ITEM_MATCHES_exact (config_item : WT_CONFIG_ITEM) (s : string) :
  nul_free s = true ->
  (ITEM_MATCHES config_item s = true <-> str config_item = s).
Proof. apply ITEM_MATCHES_iff. Qed.

(** X14 on the keyid userbad against the name user1. *)
Lemma ITEM_MATCHES_exact_witness :
  ITEM_MATCHES (mkItem USERBAD_KEYID) USER1_KEYID = true
  <-> str (mkItem USERBAD_KEYID) = USER1_KEYID.
Proof.
  apply (ITEM_MATCHES_exact (mkItem USERBAD_KEYID) USER1_KEYID). reflexivity.
Defined.

(** ** The rotation of an instance *)

(** X15.  No callback changes the rotation of the instance that serves
    it: rotate_encrypt, rotate_decrypt and rotate_sizing leave rot_N, keyid
    and password as they are, whatever they return, and rotate_terminate
    on the global instance leaves its rot_N. *)
Theorem rotation_is_never_changed (fuel : nat) (f f' : frame)
    (src : option (list byte)) (src_len dst_len ret : Z) (c : MY_CRYPTO)
    (st st' : state) (r : Z) :
  (rotate_encrypt fuel f src src_len dst_len = Ret (ret, f')
   \/ rotate_decrypt fuel f src src_len dst_len = Ret (ret, f') ->
   rot_N (inst f') = rot_N (inst f)
   /\ keyid (inst f') = keyid (inst f)
   /\ password (inst f') = password (inst f))
  /\ (rot_N (rotate_sizing c).1.2 = rot_N c
      /\ keyid (rotate_sizing c).1.2 = keyid c
      /\ password (rotate_sizing c).1.2 = password c)
  /\ (rotate_terminate st Global = Ret (r, st') ->
      rot_N (my_crypto_global st') = rot_N (my_crypto_global st)).
Proof.
  split; [| split; [repeat split |]].
  - intros [H | H];
      [apply rotate_encrypt_counts in H | apply rotate_decrypt_counts in H];
      rewrite H; repeat split.
  - intros Hrun. unfold rotate_terminate in Hrun.
    apply bind_Ret in Hrun as (c0 & Hload & Hrun).
    apply bind_Ret in Hrun as ([s1 c1] & H1 & Hrun).
    apply bind_Ret in Hrun as ([s2 c2] & H2 & Hrun).
    injection Hrun as <- <-.
    cbn [load_crypto] in Hload. injection Hload as <-.
    assert (Hc1 : rot_N (my_crypto_global s1) = rot_N (my_crypto_global st)
                  /\ c1 = my_crypto_global s1).
    { destruct (password (count_call (my_crypto_global st))) as [p |].
      - apply bind_Ret in H1 as (s & _ & [= <- <-]). split; reflexivity.
      - injection H1 as <- <-. split; reflexivity. }
    destruct Hc1 as [Hr1 ->].
    destruct (keyid (my_crypto_global s1)) as [k |].
    + apply bind_Ret in H2 as (s & _ & [= <- <-]). exact Hr1.
    + injection H2 as <- <-. exact Hr1.
Qed.

(** X15 on a call of rotate_encrypt without source and on
    rotate_terminate at startup. *)
Lemma rotation_is_never_changed_witness :
  rot_N (count_call (inst hello_frame)) = rot_N (inst hello_frame)
  /\ rot_N (my_crypto_global (mkState (mkCrypto 0 1 None None) ∅ 3 []))
     = rot_N (my_crypto_global (startup 3)).
Proof.
  destruct (rotation_is_never_changed 1 hello_frame
              (mkFrame (count_call (inst hello_frame)) (dst hello_frame)
                 (result_len hello_frame) (rnd hello_frame))
              None 0 0 0 (inst hello_frame) (startup 3)
              (mkState (mkCrypto 0 1 None None) ∅ 3 []) 0) as (Hcall & _ & Hterm).
  split.
  - apply Hcall. left. reflexivity.
  - apply Hterm. vm_compute. reflexivity.
Defined.
